(** * EncryptedDiceGame: a shallow embedding of the contract and its properties

    The development follows [dice-contracts/contracts/EncryptedDiceGame.sol].

    Encrypted integers are modelled by their cleartext view: a handle is
    either the null handle ([None], an uninitialised storage slot) or a
    ciphertext whose decryption is a known integer ([Some v]).  The FHE
    operations are the library's arithmetic on those cleartexts, with the
    wrap-around of the ciphertext width written out.  Storage mappings are
    finite maps read with the Solidity default (zero) for absent keys.  A
    transaction either commits a new state or reverts to the state it
    started from. *)

From Stdlib Require Import ZArith Lia Bool.
From stdpp Require Import base option list gmap strings.

Local Open Scope Z_scope.

(** ** Machine integers *)

Definition uint256_max : Z := 2 ^ 256 - 1.
Definition uint32_max : Z := 2 ^ 32 - 1.          (* type(uint32).max *)
Definition ether : Z := 10 ^ 18.                  (* 1 ether, in wei *)

(** [uint32(x)]: an explicit narrowing conversion truncates. *)
Definition to_uint32 (x : Z) : Z := x mod 2 ^ 32.

(** ** Contract constants *)

Definition MIN_STAKE : Z := 1 * ether.
Definition MAX_STAKE : Z := 1000 * ether.
Definition ROLL_TOKEN_RATE : Z := 1000.
Definition MAX_MINT : Z := 10000 * ether.

(** ** Encrypted values (cleartext view) *)

Abbreviation address := Z (only parsing).
Abbreviation euint32 := (option Z) (only parsing).
Abbreviation euint8 := (option Z) (only parsing).
Abbreviation ebool := bool (only parsing).

(** Decryption of a handle; the library reads the null handle as zero. *)
Definition decrypt (h : option Z) : Z := default 0 h.

Module FHE.

Definition asEuint32 (v : Z) : euint32 := Some v.
Definition asEuint8 (v : Z) : euint8 := Some v.

Definition add (a b : euint32) : euint32 :=
  Some ((decrypt a + decrypt b) mod 2 ^ 32).

Definition sub (a b : euint32) : euint32 :=
  Some ((decrypt a - decrypt b) mod 2 ^ 32).

Definition and (a b : euint32) : euint32 :=
  Some (Z.land (decrypt a) (decrypt b)).

Definition eq (a b : option Z) : ebool := decrypt a =? decrypt b.

Definition eq_bool (a b : ebool) : ebool := Bool.eqb a b.

(** Both arms are ciphertexts computed before the selection. *)
Definition select (c : ebool) (a b : euint32) : euint32 :=
  Some (if c then decrypt a else decrypt b).

End FHE.

(** An external ciphertext together with its input proof: the cleartext it
    carries and whether the proof verifies for the caller. *)
Record ExternalInput : Type := mkExternal {
  ext_clear : Z;
  ext_valid : bool
}.

(** ** Errors, events, permission grants *)

Inductive Error : Type :=
| OnlyOwner
| InvalidDiceCount
| MaxMintExceeded
| NoETHSent
| OnlyGamePlayer
| GameAlreadyResolved
| RequireFailed (reason : string)
| Panic (code : Z)                (* 0x11 arithmetic overflow, 0x32 index out of bounds *)
| InvalidProof                    (* FHE.fromExternal rejects the input proof *)
| TransferFailed                  (* the recipient of [transfer] rejects the payment *)
| SenderNotAllowed                (* the access-control list refuses the calling contract *)
| NotPayable.                     (* value sent to a function that is not payable *)

Definition AmountTooLarge : Error := RequireFailed "ROLL amount too large for uint32".
Definition InvalidAmount : Error := RequireFailed "Amount must be greater than 0".
Definition InsufficientTreasury : Error := RequireFailed "Insufficient contract ETH balance".
Definition MustSendETH : Error := RequireFailed "Must send ETH".
Definition Unauthorized : Error := RequireFailed "Unauthorized".

Inductive Event : Type :=
| GameStarted (gameId : Z) (player : address) (diceCount : Z) (timestamp : Z)
| GameResolved (gameId : Z) (player : address) (timestamp : Z)
| TokensSwapped (user : address) (ethAmount rollAmount : Z) (ethToRoll : bool)
| TokensMinted (user : address) (amount : Z)
| TreasuryFunded (funder : address) (amount : Z).

(** Calls to the access-control list, in the order they are made.  The
    ciphertext is recorded by its cleartext view. *)
Inductive Cipher : Type :=
| CInt (h : option Z)
| CBool (b : bool).

Inductive Grant : Type :=
| AllowThis (c : Cipher)
| Allow (c : Cipher) (who : address)
| MakePubliclyDecryptable (c : Cipher).

(** ** Storage *)

Record Game : Type := mkGame {
  player : address;
  diceCount : Z;                   (* uint8 *)
  prediction : euint8;
  stakeAmount : euint32;
  diceValues : list euint32;
  timestamp : Z;
  isResolved : bool
}.

(** The value of [games[id]] for an id never written. *)
Definition zeroGame : Game :=
  mkGame 0 0 None None [] 0 false.

Record State : Type := mkState {
  owner : address;
  gameCounter : Z;
  playerBalance : gmap Z Z;        (* absent key: null handle *)
  games : gmap Z Game;
  playerGames : gmap Z (list Z);
  balance : Z;                     (* address(this).balance, in wei *)
  events : list Event;
  grants : list Grant
}.

Definition getGame (s : State) (gameId : Z) : Game :=
  default zeroGame (games s !! gameId).

Definition balanceOf (s : State) (who : address) : euint32 :=
  playerBalance s !! who.

Definition gamesOf (s : State) (who : address) : list Z :=
  default [] (playerGames s !! who).

(** Writing a handle into a mapping slot. *)
Definition sstore (k : Z) (h : option Z) (m : gmap Z Z) : gmap Z Z :=
  match h with
  | Some v => <[k := v]> m
  | None => delete k m
  end.

Definition set_gameCounter (n : Z) (s : State) : State :=
  mkState (owner s) n (playerBalance s) (games s) (playerGames s)
          (balance s) (events s) (grants s).

Definition set_playerBalance (who : address) (h : euint32) (s : State) : State :=
  mkState (owner s) (gameCounter s) (sstore who h (playerBalance s)) (games s)
          (playerGames s) (balance s) (events s) (grants s).

Definition set_game (gameId : Z) (g : Game) (s : State) : State :=
  mkState (owner s) (gameCounter s) (playerBalance s) (<[gameId := g]> (games s))
          (playerGames s) (balance s) (events s) (grants s).

Definition push_playerGame (who : address) (gameId : Z) (s : State) : State :=
  mkState (owner s) (gameCounter s) (playerBalance s) (games s)
          (<[who := gamesOf s who ++ [gameId]]> (playerGames s))
          (balance s) (events s) (grants s).

Definition set_balance (b : Z) (s : State) : State :=
  mkState (owner s) (gameCounter s) (playerBalance s) (games s) (playerGames s)
          b (events s) (grants s).

Definition add_event (e : Event) (s : State) : State :=
  mkState (owner s) (gameCounter s) (playerBalance s) (games s) (playerGames s)
          (balance s) (events s ++ [e]) (grants s).

Definition add_grant (g : Grant) (s : State) : State :=
  mkState (owner s) (gameCounter s) (playerBalance s) (games s) (playerGames s)
          (balance s) (events s) (grants s ++ [g]).

(** Field writes through a [Game storage] reference. *)
Definition with_player (a : address) (g : Game) : Game :=
  mkGame a (diceCount g) (prediction g) (stakeAmount g) (diceValues g) (timestamp g) (isResolved g).
Definition with_diceCount (n : Z) (g : Game) : Game :=
  mkGame (player g) n (prediction g) (stakeAmount g) (diceValues g) (timestamp g) (isResolved g).
Definition with_prediction (p : euint8) (g : Game) : Game :=
  mkGame (player g) (diceCount g) p (stakeAmount g) (diceValues g) (timestamp g) (isResolved g).
Definition with_stakeAmount (v : euint32) (g : Game) : Game :=
  mkGame (player g) (diceCount g) (prediction g) v (diceValues g) (timestamp g) (isResolved g).
Definition with_diceValues (l : list euint32) (g : Game) : Game :=
  mkGame (player g) (diceCount g) (prediction g) (stakeAmount g) l (timestamp g) (isResolved g).
Definition with_timestamp (t : Z) (g : Game) : Game :=
  mkGame (player g) (diceCount g) (prediction g) (stakeAmount g) (diceValues g) t (isResolved g).
Definition with_isResolved (b : bool) (g : Game) : Game :=
  mkGame (player g) (diceCount g) (prediction g) (stakeAmount g) (diceValues g) (timestamp g) b.

Definition update_game (gameId : Z) (f : Game -> Game) (s : State) : State :=
  set_game gameId (f (getGame s gameId)) s.

(** ** The transaction monad: state passing with revert *)

Inductive Result (A : Type) : Type :=
| Ok (a : A)
| Revert (e : Error).
Arguments Ok {A} a.
Arguments Revert {A} e.

Definition M (A : Type) : Type := State -> Result (A * State).

Definition ret {A} (a : A) : M A := fun s => Ok (a, s).

Definition bind {A B} (m : M A) (k : A -> M B) : M B :=
  fun s => match m s with
           | Ok (a, s') => k a s'
           | Revert e => Revert e
           end.

Definition revert {A} (e : Error) : M A := fun _ => Revert e.
Definition get : M State := fun s => Ok (s, s).
Definition modify (f : State -> State) : M unit := fun s => Ok (tt, f s).

Notation "'let*' x ':=' m 'in' k" := (bind m (fun x => k))
  (at level 10, x name, m at level 100, k at level 200).
Notation "m ';;' k" := (bind m (fun _ => k))
  (at level 100, k at level 200, right associativity).

Definition require (c : bool) (e : Error) : M unit :=
  if c then ret tt else revert e.

Definition emit (e : Event) : M unit := modify (add_event e).
Definition acl (g : Grant) : M unit := modify (add_grant g).

(** Checked [uint256] arithmetic of Solidity 0.8. *)
Definition checked_mul (a b : Z) : M Z :=
  if a * b <=? uint256_max then ret (a * b) else revert (Panic 17).

Definition checked_inc (a : Z) : M Z :=
  if a + 1 <=? uint256_max then ret (a + 1) else revert (Panic 17).

Definition fromExternal (x : ExternalInput) : M (option Z) :=
  if ext_valid x then ret (Some (ext_clear x)) else revert InvalidProof.

(** ** Call context *)

Record Env : Type := mkEnv {
  msg_sender : address;
  msg_value : Z;
  block_timestamp : Z;
  block_prevrandao : Z
}.

(** ** The contract *)

Section Contract.

(** [uint256(keccak256(abi.encodePacked(timestamp, prevrandao, gameId, i)))] *)
Variable keccak256 : Z -> Z -> Z -> Z -> Z.

(** Whether a plain [transfer] (2300 gas) to an address is accepted. *)
Variable accepts_transfer : address -> bool.

(** [constructor]; [funds] is whatever the address held before deployment. *)
Definition constructor (deployer : address) (funds : Z) : State :=
  mkState deployer 0 ∅ ∅ ∅ funds [] [].

Definition onlyOwner (env : Env) : M unit :=
  let* s := get in
  if negb (msg_sender env =? owner s) then revert OnlyOwner else ret tt.

Definition validDiceCount (diceCount : Z) : M unit :=
  if (diceCount <? 1) || (diceCount >? 3) then revert InvalidDiceCount else ret tt.

(** [payable(to).transfer(amount)]: fails when the contract holds less than
    [amount] or the recipient rejects the payment. *)
Definition transfer (to : address) (amount : Z) : M unit :=
  let* s := get in
  if (amount <=? balance s) && accepts_transfer to
  then modify (set_balance (balance s - amount))
  else revert TransferFailed.

Definition mintTokens (env : Env) (amount : Z) : M unit :=
  let sender := msg_sender env in
  if amount >? MAX_MINT then revert MaxMintExceeded else
  let encryptedAmount := FHE.asEuint32 (to_uint32 amount) in
  let* s := get in
  modify (set_playerBalance sender (FHE.add (balanceOf s sender) encryptedAmount));;
  let* s := get in
  acl (AllowThis (CInt (balanceOf s sender)));;
  acl (Allow (CInt (balanceOf s sender)) sender);;
  emit (TokensMinted sender amount).

Definition swapETHForROLL (env : Env) : M unit :=
  let sender := msg_sender env in
  if msg_value env =? 0 then revert NoETHSent else
  let* scaled := checked_mul (msg_value env) ROLL_TOKEN_RATE in
  let rollAmount := scaled / (1 * ether) in
  require (rollAmount <=? uint32_max) AmountTooLarge;;
  let encryptedAmount := FHE.asEuint32 (to_uint32 rollAmount) in
  let* s := get in
  modify (set_playerBalance sender (FHE.add (balanceOf s sender) encryptedAmount));;
  let* s := get in
  acl (AllowThis (CInt (balanceOf s sender)));;
  acl (Allow (CInt (balanceOf s sender)) sender);;
  emit (TokensSwapped sender (msg_value env) rollAmount true).

Definition swapROLLForETH (env : Env) (rollAmount : Z) (encryptedAmount : ExternalInput) : M unit :=
  let sender := msg_sender env in
  require (rollAmount >? 0) InvalidAmount;;
  let* scaled := checked_mul rollAmount (1 * ether) in
  let ethAmount := scaled / ROLL_TOKEN_RATE in
  let* s := get in
  require (balance s >=? ethAmount) InsufficientTreasury;;
  let* encRollAmount := fromExternal encryptedAmount in
  let* s := get in
  modify (set_playerBalance sender (FHE.sub (balanceOf s sender) encRollAmount));;
  let* s := get in
  acl (AllowThis (CInt (balanceOf s sender)));;
  acl (Allow (CInt (balanceOf s sender)) sender);;
  transfer sender ethAmount;;
  emit (TokensSwapped sender ethAmount rollAmount false).

Definition addTreasuryETH (env : Env) : M unit :=
  onlyOwner env;;
  require (msg_value env >? 0) MustSendETH;;
  emit (TreasuryFunded (msg_sender env) (msg_value env)).

Definition getContractETHBalance (s : State) : Z := balance s.

Definition startGame (env : Env) (diceCount : Z)
           (encryptedPrediction encryptedStake : ExternalInput) : M unit :=
  let sender := msg_sender env in
  validDiceCount diceCount;;
  let* prediction' := fromExternal encryptedPrediction in
  let* stakeAmount' := fromExternal encryptedStake in
  let* s := get in
  let gameId := gameCounter s in
  let* next := checked_inc gameId in
  modify (set_gameCounter next);;
  modify (update_game gameId (with_player sender));;
  modify (update_game gameId (with_diceCount diceCount));;
  modify (update_game gameId (with_prediction prediction'));;
  modify (update_game gameId (with_stakeAmount stakeAmount'));;
  modify (update_game gameId (with_timestamp (block_timestamp env)));;
  modify (update_game gameId (with_isResolved false));;
  modify (update_game gameId (with_diceValues (replicate (Z.to_nat diceCount) None)));;
  let* s := get in
  modify (set_playerBalance sender (FHE.sub (balanceOf s sender) stakeAmount'));;
  modify (push_playerGame sender gameId);;
  let* s := get in
  acl (AllowThis (CInt (balanceOf s sender)));;
  acl (Allow (CInt (balanceOf s sender)) sender);;
  acl (AllowThis (CInt (prediction (getGame s gameId))));;
  acl (Allow (CInt (prediction (getGame s gameId))) sender);;
  acl (AllowThis (CInt (stakeAmount (getGame s gameId))));;
  acl (Allow (CInt (stakeAmount (getGame s gameId))) sender);;
  emit (GameStarted gameId sender diceCount (block_timestamp env)).

(** [uint32(uint256(keccak256(...)) % 6) + 1] *)
Definition randomValue (env : Env) (gameId i : Z) : Z :=
  to_uint32 (keccak256 (block_timestamp env) (block_prevrandao env) gameId i mod 6) + 1.

(** [game.diceValues[i] = v], with the array bounds check. *)
Definition write_dice (gameId i : Z) (v : euint32) : M unit :=
  let* s := get in
  let arr := diceValues (getGame s gameId) in
  if (0 <=? i) && (i <? Z.of_nat (length arr))
  then modify (update_game gameId (with_diceValues (<[Z.to_nat i := v]> arr)))
  else revert (Panic 50).

(** The loop [for (uint8 i = 0; i < game.diceCount; ++i)], entered at
    index [i] with [n] iterations left. *)
Fixpoint rollDice (env : Env) (gameId : Z) (n : nat) (i : Z) (sum : euint32) : M euint32 :=
  match n with
  | O => ret sum
  | S n' =>
      let r := randomValue env gameId i in
      write_dice gameId i (FHE.asEuint32 r);;
      let sum' := FHE.add sum (FHE.asEuint32 r) in
      let* s := get in
      acl (AllowThis (CInt (default None (diceValues (getGame s gameId) !! Z.to_nat i))));;
      acl (Allow (CInt (default None (diceValues (getGame s gameId) !! Z.to_nat i))) (msg_sender env));;
      rollDice env gameId n' (i + 1) sum'
  end.

(** [game] is a storage reference; the loop writes nothing of the game but
    its dice array, so its other fields are read here once. *)
Definition resolveGame (env : Env) (gameId : Z) : M unit :=
  let sender := msg_sender env in
  let* s := get in
  let game := getGame s gameId in
  if negb (player game =? sender) then revert OnlyGamePlayer else
  if isResolved game then revert GameAlreadyResolved else
  let* sum := rollDice env gameId (Z.to_nat (diceCount game)) 0 (FHE.asEuint32 0) in
  let leastBit := FHE.and sum (FHE.asEuint32 1) in
  let isEven := FHE.eq leastBit (FHE.asEuint32 0) in
  let predictedEven := FHE.eq (prediction game) (FHE.asEuint8 0) in
  let won := FHE.eq_bool isEven predictedEven in
  let doublePayout := FHE.add (stakeAmount game) (stakeAmount game) in
  let finalPayout := FHE.select won doublePayout (FHE.asEuint32 0) in
  let* s := get in
  modify (set_playerBalance sender (FHE.add (balanceOf s sender) finalPayout));;
  let* s := get in
  acl (AllowThis (CInt (balanceOf s sender)));;
  acl (Allow (CInt (balanceOf s sender)) sender);;
  acl (AllowThis (CBool won));;
  acl (Allow (CBool won) sender);;
  modify (update_game gameId (with_isResolved true));;
  emit (GameResolved gameId sender (block_timestamp env)).

(** [FHE.makePubliclyDecryptable]: the access-control list takes the request
    only from a contract allowed on the handle.  The contract is allowed on
    every balance it has stored, each write being followed by
    [FHE.allowThis]; nobody is allowed on the null handle. *)
Definition makePubliclyDecryptable (h : euint32) : M unit :=
  match h with
  | Some _ => acl (MakePubliclyDecryptable (CInt h))
  | None => revert SenderNotAllowed
  end.

Definition makeBalancePubliclyDecryptable (env : Env) (who : address) : M unit :=
  let* s := get in
  require ((msg_sender env =? who) || (msg_sender env =? owner s)) Unauthorized;;
  makePubliclyDecryptable (balanceOf s who).

Definition withdrawETH (env : Env) : M unit :=
  onlyOwner env;;
  let* s := get in
  transfer (owner s) (balance s).

(** [receive] and [fallback] have empty bodies. *)
Definition receive : M unit := ret tt.
Definition fallback : M unit := ret tt.

(** *** Read-only entry points *)

Definition getGame_view (s : State) (gameId : Z) : address * Z * Z * bool :=
  let game := getGame s gameId in
  (player game, diceCount game, timestamp game, isResolved game).

Definition getBalance (s : State) (who : address) : euint32 := balanceOf s who.

Definition getGamePrediction (env : Env) (s : State) (gameId : Z) : Result euint8 :=
  if negb (player (getGame s gameId) =? msg_sender env) then Revert OnlyGamePlayer
  else Ok (prediction (getGame s gameId)).

Definition getGameStake (env : Env) (s : State) (gameId : Z) : Result euint32 :=
  if negb (player (getGame s gameId) =? msg_sender env) then Revert OnlyGamePlayer
  else Ok (stakeAmount (getGame s gameId)).

Definition getGameDiceValues (env : Env) (s : State) (gameId : Z) : Result (list euint32) :=
  if negb (player (getGame s gameId) =? msg_sender env) then Revert OnlyGamePlayer
  else Ok (diceValues (getGame s gameId)).

Definition getPlayerGames (s : State) (who : address) : list Z := gamesOf s who.

Definition getPlayerGameCount (s : State) (who : address) : Z :=
  Z.of_nat (length (gamesOf s who)).

(** *** Transactions *)

Inductive Call : Type :=
| MintTokens (amount : Z)
| SwapETHForROLL
| SwapROLLForETH (rollAmount : Z) (encryptedAmount : ExternalInput)
| AddTreasuryETH
| StartGame (diceCount : Z) (encryptedPrediction encryptedStake : ExternalInput)
| ResolveGame (gameId : Z)
| MakeBalancePubliclyDecryptable (who : address)
| WithdrawETH
| Receive                        (* plain payment, empty calldata *)
| Fallback.                      (* calldata matching no function *)

Definition payable (c : Call) : bool :=
  match c with
  | SwapETHForROLL | AddTreasuryETH | Receive | Fallback => true
  | _ => false
  end.

Definition body (env : Env) (c : Call) : M unit :=
  match c with
  | MintTokens amount => mintTokens env amount
  | SwapETHForROLL => swapETHForROLL env
  | SwapROLLForETH rollAmount enc => swapROLLForETH env rollAmount enc
  | AddTreasuryETH => addTreasuryETH env
  | StartGame n p st => startGame env n p st
  | ResolveGame gameId => resolveGame env gameId
  | MakeBalancePubliclyDecryptable who => makeBalancePubliclyDecryptable env who
  | WithdrawETH => withdrawETH env
  | Receive => receive
  | Fallback => fallback
  end.

Inductive Outcome : Type :=
| Success
| Reverted (e : Error).

(** One transaction: the value sent is credited on entry, a function that
    is not payable rejects it, and a revert restores the starting state. *)
Definition transact (env : Env) (c : Call) (s : State) : State * Outcome :=
  if negb (payable c) && negb (msg_value env =? 0) then (s, Reverted NotPayable)
  else
    match body env c (set_balance (balance s + msg_value env) s) with
    | Ok (_, s') => (s', Success)
    | Revert e => (s, Reverted e)
    end.

(** A transaction comes from an account, which is never the zero address,
    and carries a non-negative value. *)
Definition valid_env (env : Env) : Prop :=
  msg_sender env <> 0 /\ 0 <= msg_value env.

(** States reachable from deployment by any sequence of transactions. *)
Inductive reachable : State -> Prop :=
| reachable_deploy deployer funds :
    reachable (constructor deployer funds)
| reachable_step s env c :
    reachable s -> valid_env env -> reachable (fst (transact env c s)).

End Contract.

(** ** Vocabulary of the statements *)

(** The operations the design lists as writers of the treasury: buy, sell,
    owner deposit, owner withdrawal. *)
Definition treasury_operation (c : Call) : bool :=
  match c with
  | SwapETHForROLL | SwapROLLForETH _ _ | AddTreasuryETH | WithdrawETH => true
  | _ => false
  end.

(** The entry points that write the game table. *)
Definition game_call (c : Call) : bool :=
  match c with
  | StartGame _ _ _ | ResolveGame _ => true
  | _ => false
  end.

Section Dice.
Variable keccak256 : Z -> Z -> Z -> Z -> Z.

(** What the loop of [resolveGame] computes, read off its body: the
    running sum and the slots written, for [n] iterations from index [i]. *)
Fixpoint diceSum (env : Env) (gameId : Z) (n : nat) (i : Z) (sum : euint32) : euint32 :=
  match n with
  | O => sum
  | S n' =>
      diceSum env gameId n' (i + 1)
              (FHE.add sum (FHE.asEuint32 (randomValue keccak256 env gameId i)))
  end.

Fixpoint diceFill (env : Env) (gameId : Z) (n : nat) (i : Z) (arr : list euint32)
  : list euint32 :=
  match n with
  | O => arr
  | S n' =>
      diceFill env gameId n' (i + 1)
               (<[Z.to_nat i := FHE.asEuint32 (randomValue keccak256 env gameId i)]> arr)
  end.

(** The encrypted outcome and payout of [resolveGame], as its body
    computes them from the stored game. *)
Definition gameSum (env : Env) (gameId : Z) (g : Game) : euint32 :=
  diceSum env gameId (Z.to_nat (diceCount g)) 0 (FHE.asEuint32 0).

Definition gameWon (env : Env) (gameId : Z) (g : Game) : ebool :=
  let leastBit := FHE.and (gameSum env gameId g) (FHE.asEuint32 1) in
  let isEven := FHE.eq leastBit (FHE.asEuint32 0) in
  let predictedEven := FHE.eq (prediction g) (FHE.asEuint8 0) in
  FHE.eq_bool isEven predictedEven.

Definition gamePayout (env : Env) (gameId : Z) (g : Game) : euint32 :=
  let doublePayout := FHE.add (stakeAmount g) (stakeAmount g) in
  FHE.select (gameWon env gameId g) doublePayout (FHE.asEuint32 0).

End Dice.

(** The state a successful [startGame] leaves: one new game at the current
    counter, the stake debited, the id appended to the caller's list. *)
Definition started (env : Env) (n : Z) (p stake : Z) (s : State) : State :=
  let sender := msg_sender env in
  let gameId := gameCounter s in
  let debited := FHE.sub (balanceOf s sender) (Some stake) in
  mkState (owner s) (gameId + 1)
          (sstore sender debited (playerBalance s))
          (<[gameId := mkGame sender n (Some p) (Some stake)
                              (replicate (Z.to_nat n) None) (block_timestamp env) false]>
             (games s))
          (<[sender := gamesOf s sender ++ [gameId]]> (playerGames s))
          (balance s)
          (events s ++ [GameStarted gameId sender n (block_timestamp env)])
          (grants s ++ [AllowThis (CInt debited); Allow (CInt debited) sender;
                        AllowThis (CInt (Some p)); Allow (CInt (Some p)) sender;
                        AllowThis (CInt (Some stake)); Allow (CInt (Some stake)) sender]).

(** The writes of [resolveGame] after its loop, on the state [s1] the loop
    leaves: credit the payout, grant the permissions, flag the game. *)
Definition settle (env : Env) (gameId : Z) (won : ebool) (finalPayout : euint32)
           (s1 : State) : State :=
  let sender := msg_sender env in
  let credited := FHE.add (balanceOf s1 sender) finalPayout in
  add_event (GameResolved gameId sender (block_timestamp env))
    (update_game gameId (with_isResolved true)
       (add_grant (Allow (CBool won) sender)
          (add_grant (AllowThis (CBool won))
             (add_grant (Allow (CInt credited) sender)
                (add_grant (AllowThis (CInt credited))
                   (set_playerBalance sender credited s1)))))).

(** A dice face: an initialised ciphertext of a value in 1..6. *)
Definition is_face (h : euint32) : Prop :=
  exists v, h = Some v /\ 1 <= v <= 6.

(** Shape of a stored game's dice array. *)
Definition slots_ok (g : Game) : Prop :=
  length (diceValues g) = Z.to_nat (diceCount g)
  /\ 1 <= diceCount g <= 3
  /\ player g <> 0
  /\ (isResolved g = false -> Forall (fun h => h = None) (diceValues g))
  /\ (isResolved g = true -> Forall is_face (diceValues g)).

(** Storage invariant: game ids are allocated densely below the counter. *)
Definition Inv (s : State) : Prop :=
  0 <= gameCounter s
  /\ (forall gameId, gameId < 0 \/ gameCounter s <= gameId -> games s !! gameId = None)
  /\ (forall gameId g, games s !! gameId = Some g -> slots_ok g)
  /\ (forall gameId, 0 <= gameId < gameCounter s -> is_Some (games s !! gameId)).

(** A computation leaves a reading of the state unchanged whenever it
    returns. *)
Definition preserves {X A : Type} (proj : State -> X) (m : M A) : Prop :=
  forall s a s', m s = Ok (a, s') -> proj s' = proj s.

(** ** Concrete runs

    A small cast for the examples: the statements below hold for every hash
    function and every set of accounts; these are one choice of each. *)

Module Scenario.

Definition hash (t r g i : Z) : Z := t + r + g + i.
Definition eoa (a : address) : bool := true.

Definition deployer : address := 1.
Definition alice : address := 7.

(** A call by [alice] carrying [v] wei, at time 100. *)
Definition call_with (v : Z) : Env := mkEnv alice v 100 5.
Definition call : Env := call_with 0.

Definition step (env : Env) (c : Call) (s : State) : State :=
  fst (transact hash eoa env c s).

Definition fresh : State := constructor deployer 0.
Definition funded : State := constructor deployer (10 ^ 18).

(** alice mints 1000 ROLL, then stakes 100 on "odd" with two dice *)
Definition minted : State := step call (MintTokens 1000) fresh.
Definition staked : State :=
  step call (StartGame 2 (mkExternal 1 true) (mkExternal 100 true)) minted.
Definition resolved : State := step call (ResolveGame 0) staked.

(** alice holds the largest 32-bit balance *)
Definition full : State := step call (MintTokens 4294967295) fresh.

(** alice holds 1000 ROLL and the contract holds 1 ether *)
Definition stocked : State := step call (MintTokens 1000) funded.

End Scenario.

(** ** Further vocabulary *)

(** [getPlayerBalance], the second reader of the balance mapping. *)
Definition getPlayerBalance (s : State) (who : address) : euint32 := balanceOf s who.

(** Sum of the cleartexts of a list of handles. *)
Definition sum_faces (l : list euint32) : Z :=
  foldr (fun h acc => decrypt h + acc) 0 l.

Definition sumZ (l : list Z) : Z := foldr Z.add 0 l.

(** Every stored balance is a 32-bit value. *)
Definition balances_uint32 (s : State) : Prop :=
  forall who v, playerBalance s !! who = Some v -> 0 <= v < 2 ^ 32.

(** The per-player lists index the game table: a list holds exactly the ids
    of the games of its player, each once, in the order of creation. *)
Definition games_listed (s : State) : Prop :=
  forall who,
    (forall gameId, gameId ∈ gamesOf s who <->
                    (0 <= gameId < gameCounter s /\ player (getGame s gameId) = who))
    /\ (forall i j a b, (i < j)%nat ->
         gamesOf s who !! i = Some a -> gamesOf s who !! j = Some b -> a < b).

(** The event a call emits when it succeeds, with the arguments its body
    passes to [emit]. *)
Definition emitted (env : Env) (c : Call) (s : State) : list Event :=
  let sender := msg_sender env in
  match c with
  | MintTokens amount => [TokensMinted sender amount]
  | SwapETHForROLL =>
      [TokensSwapped sender (msg_value env) (msg_value env * 1000 / ether) true]
  | SwapROLLForETH amt _ => [TokensSwapped sender (amt * ether / 1000) amt false]
  | AddTreasuryETH => [TreasuryFunded sender (msg_value env)]
  | StartGame n _ _ => [GameStarted (gameCounter s) sender n (block_timestamp env)]
  | ResolveGame gameId => [GameResolved gameId sender (block_timestamp env)]
  | MakeBalancePubliclyDecryptable _ | WithdrawETH | Receive | Fallback => []
  end.

(** The entry points whose body assigns [playerBalance[msg.sender]]. *)
Definition writes_balance (c : Call) : bool :=
  match c with
  | MintTokens _ | SwapETHForROLL | SwapROLLForETH _ _ | StartGame _ _ _ | ResolveGame _ => true
  | _ => false
  end.

Definition succeeded (o : Outcome) : bool :=
  match o with
  | Success => true
  | Reverted _ => false
  end.

(** The permissions a call of [resolveGame] asks of the access-control list
    for the dice [faces] it stored and for the balance [credited] and the
    outcome [won] it computed, in the order of its body. *)
Definition resolve_grants (sender : address) (faces : list euint32)
           (credited : euint32) (won : ebool) : list Grant :=
  flat_map (fun h => [AllowThis (CInt h); Allow (CInt h) sender]) faces
  ++ [AllowThis (CInt credited); Allow (CInt credited) sender;
      AllowThis (CBool won); Allow (CBool won) sender].

Section Replay.
Variable keccak256 : Z -> Z -> Z -> Z -> Z.
Variable accepts_transfer : address -> bool.

(** The state after a sequence of transactions, in order. *)
Definition replay (txs : list (Env * Call)) (s : State) : State :=
  foldl (fun s t => fst (transact keccak256 accepts_transfer (fst t) (snd t) s)) s txs.

(** Whether, in the course of [txs] from [s], the account [who] has sent a
    call that assigns its balance and went through. *)
Fixpoint written (who : address) (txs : list (Env * Call)) (s : State) : bool :=
  match txs with
  | [] => false
  | t :: txs' =>
      let after := transact keccak256 accepts_transfer (fst t) (snd t) s in
      ((msg_sender (fst t) =? who) && writes_balance (snd t) && succeeded (snd after))
      || written who txs' (fst after)
  end.

(** The permissions the loop of [resolveGame] asks for, read off its body,
    for [n] iterations from index [i] over slots within bounds. *)
Fixpoint diceGrants (env : Env) (gameId : Z) (n : nat) (i : Z) : list Grant :=
  match n with
  | O => []
  | S n' =>
      let h := FHE.asEuint32 (randomValue keccak256 env gameId i) in
      AllowThis (CInt h) :: Allow (CInt h) (msg_sender env)
        :: diceGrants env gameId n' (i + 1)
  end.

End Replay.

Module Scenes.
Import Scenario.

(** A call by the deployer, who owns the contract, carrying [v] wei. *)
Definition owner_call_with (v : Z) : Env := mkEnv deployer v 100 5.
Definition owner_call : Env := owner_call_with 0.

(** a second player *)
Definition bob : address := 9.
Definition bob_call : Env := mkEnv bob 0 100 5.

End Scenes.

(** * Properties *)

(** ** Reading storage after a write *)

Section Frames.
Implicit Types (s : State) (g : Game).

Lemma balanceOf_set_same who h s :
  balanceOf (set_playerBalance who h s) who = h.
Proof.
  unfold balanceOf, set_playerBalance, sstore; simpl.
  destruct h; [apply lookup_insert_eq | apply lookup_delete_eq].
Qed.

Lemma balanceOf_set_other who who' h s :
  who <> who' -> balanceOf (set_playerBalance who h s) who' = balanceOf s who'.
Proof.
  intros Hne. unfold balanceOf, set_playerBalance, sstore; simpl.
  destruct h; [by apply lookup_insert_ne | by apply lookup_delete_ne].
Qed.

Lemma getGame_update_same gameId f s :
  getGame (update_game gameId f s) gameId = f (getGame s gameId).
Proof.
  unfold update_game, set_game, getGame at 1; simpl.
  by rewrite lookup_insert_eq.
Qed.

Lemma getGame_update_other gameId gameId' f s :
  gameId <> gameId' -> getGame (update_game gameId f s) gameId' = getGame s gameId'.
Proof.
  intros Hne. unfold update_game, set_game, getGame at 1; simpl.
  by rewrite lookup_insert_ne.
Qed.

Lemma update_game_update gameId f f' s :
  update_game gameId f (update_game gameId f' s) = update_game gameId (fun g => f (f' g)) s.
Proof.
  unfold update_game at 1. rewrite getGame_update_same.
  unfold update_game, set_game; simpl. by rewrite insert_insert_eq.
Qed.

Lemma gamesOf_push_same who gameId s :
  gamesOf (push_playerGame who gameId s) who = gamesOf s who ++ [gameId].
Proof.
  unfold push_playerGame, gamesOf at 1; simpl. by rewrite lookup_insert_eq.
Qed.

Lemma gamesOf_push_other who who' gameId s :
  who <> who' -> gamesOf (push_playerGame who gameId s) who' = gamesOf s who'.
Proof.
  intros Hne. unfold push_playerGame, gamesOf at 1; simpl.
  by rewrite lookup_insert_ne.
Qed.

(** Writes that leave a reading untouched; each holds by computation. *)

Lemma balanceOf_add_event e s who : balanceOf (add_event e s) who = balanceOf s who.
Proof. reflexivity. Qed.
Lemma balanceOf_add_grant x s who : balanceOf (add_grant x s) who = balanceOf s who.
Proof. reflexivity. Qed.
Lemma balanceOf_set_balance b s who : balanceOf (set_balance b s) who = balanceOf s who.
Proof. reflexivity. Qed.
Lemma balanceOf_set_gameCounter n s who : balanceOf (set_gameCounter n s) who = balanceOf s who.
Proof. reflexivity. Qed.
Lemma balanceOf_update_game gameId f s who : balanceOf (update_game gameId f s) who = balanceOf s who.
Proof. reflexivity. Qed.
Lemma balanceOf_push who' gameId s who : balanceOf (push_playerGame who' gameId s) who = balanceOf s who.
Proof. reflexivity. Qed.

Lemma getGame_add_event e s gameId : getGame (add_event e s) gameId = getGame s gameId.
Proof. reflexivity. Qed.
Lemma getGame_add_grant x s gameId : getGame (add_grant x s) gameId = getGame s gameId.
Proof. reflexivity. Qed.
Lemma getGame_set_balance b s gameId : getGame (set_balance b s) gameId = getGame s gameId.
Proof. reflexivity. Qed.
Lemma getGame_set_gameCounter n s gameId : getGame (set_gameCounter n s) gameId = getGame s gameId.
Proof. reflexivity. Qed.
Lemma getGame_set_playerBalance who h s gameId :
  getGame (set_playerBalance who h s) gameId = getGame s gameId.
Proof. reflexivity. Qed.
Lemma getGame_push who gid s gameId : getGame (push_playerGame who gid s) gameId = getGame s gameId.
Proof. reflexivity. Qed.

Lemma balance_add_event e s : balance (add_event e s) = balance s.
Proof. reflexivity. Qed.
Lemma balance_add_grant x s : balance (add_grant x s) = balance s.
Proof. reflexivity. Qed.
Lemma balance_set_balance b s : balance (set_balance b s) = b.
Proof. reflexivity. Qed.
Lemma balance_set_gameCounter n s : balance (set_gameCounter n s) = balance s.
Proof. reflexivity. Qed.
Lemma balance_set_playerBalance who h s : balance (set_playerBalance who h s) = balance s.
Proof. reflexivity. Qed.
Lemma balance_update_game gameId f s : balance (update_game gameId f s) = balance s.
Proof. reflexivity. Qed.
Lemma balance_push who gameId s : balance (push_playerGame who gameId s) = balance s.
Proof. reflexivity. Qed.

Lemma gameCounter_add_event e s : gameCounter (add_event e s) = gameCounter s.
Proof. reflexivity. Qed.
Lemma gameCounter_add_grant x s : gameCounter (add_grant x s) = gameCounter s.
Proof. reflexivity. Qed.
Lemma gameCounter_set_balance b s : gameCounter (set_balance b s) = gameCounter s.
Proof. reflexivity. Qed.
Lemma gameCounter_set_gameCounter n s : gameCounter (set_gameCounter n s) = n.
Proof. reflexivity. Qed.
Lemma gameCounter_set_playerBalance who h s : gameCounter (set_playerBalance who h s) = gameCounter s.
Proof. reflexivity. Qed.
Lemma gameCounter_update_game gameId f s : gameCounter (update_game gameId f s) = gameCounter s.
Proof. reflexivity. Qed.
Lemma gameCounter_push who gameId s : gameCounter (push_playerGame who gameId s) = gameCounter s.
Proof. reflexivity. Qed.

Lemma games_add_event e s : games (add_event e s) = games s.
Proof. reflexivity. Qed.
Lemma games_add_grant x s : games (add_grant x s) = games s.
Proof. reflexivity. Qed.
Lemma games_set_balance b s : games (set_balance b s) = games s.
Proof. reflexivity. Qed.
Lemma games_set_gameCounter n s : games (set_gameCounter n s) = games s.
Proof. reflexivity. Qed.
Lemma games_set_playerBalance who h s : games (set_playerBalance who h s) = games s.
Proof. reflexivity. Qed.
Lemma games_push who gameId s : games (push_playerGame who gameId s) = games s.
Proof. reflexivity. Qed.
Lemma games_update_game gameId f s :
  games (update_game gameId f s) = <[gameId := f (getGame s gameId)]> (games s).
Proof. reflexivity. Qed.

Lemma gamesOf_add_event e s who : gamesOf (add_event e s) who = gamesOf s who.
Proof. reflexivity. Qed.
Lemma gamesOf_add_grant x s who : gamesOf (add_grant x s) who = gamesOf s who.
Proof. reflexivity. Qed.
Lemma gamesOf_set_balance b s who : gamesOf (set_balance b s) who = gamesOf s who.
Proof. reflexivity. Qed.
Lemma gamesOf_set_gameCounter n s who : gamesOf (set_gameCounter n s) who = gamesOf s who.
Proof. reflexivity. Qed.
Lemma gamesOf_set_playerBalance who' h s who : gamesOf (set_playerBalance who' h s) who = gamesOf s who.
Proof. reflexivity. Qed.
Lemma gamesOf_update_game gameId f s who : gamesOf (update_game gameId f s) who = gamesOf s who.
Proof. reflexivity. Qed.

End Frames.

Create Rewrite HintDb storage.

#[export] Hint Rewrite
  balanceOf_set_same getGame_update_same gamesOf_push_same
  balanceOf_add_event balanceOf_add_grant balanceOf_set_balance
  balanceOf_set_gameCounter balanceOf_update_game balanceOf_push
  getGame_add_event getGame_add_grant getGame_set_balance getGame_set_gameCounter
  getGame_set_playerBalance getGame_push
  balance_add_event balance_add_grant balance_set_balance balance_set_gameCounter
  balance_set_playerBalance balance_update_game balance_push
  gameCounter_add_event gameCounter_add_grant gameCounter_set_balance
  gameCounter_set_gameCounter gameCounter_set_playerBalance gameCounter_update_game
  gameCounter_push
  games_add_event games_add_grant games_set_balance games_set_gameCounter
  games_set_playerBalance games_push
  gamesOf_add_event gamesOf_add_grant gamesOf_set_balance gamesOf_set_gameCounter
  gamesOf_set_playerBalance gamesOf_update_game
  : storage.

Ltac storage := autorewrite with storage; try reflexivity.

(** Machine-integer facts used below. *)

Lemma MAX_MINT_value : MAX_MINT = 10 ^ 22.
Proof. reflexivity. Qed.

Lemma decrypt_add a b : decrypt (FHE.add a b) = (decrypt a + decrypt b) mod 2 ^ 32.
Proof. reflexivity. Qed.

Lemma decrypt_Some v : decrypt (Some v) = v.
Proof. reflexivity. Qed.

Lemma decrypt_asEuint32 v : decrypt (FHE.asEuint32 v) = v.
Proof. reflexivity. Qed.

Lemma decrypt_sub a b : decrypt (FHE.sub a b) = (decrypt a - decrypt b) mod 2 ^ 32.
Proof. reflexivity. Qed.

Lemma add_same_residue x y y' :
  decrypt y mod 2 ^ 32 = decrypt y' mod 2 ^ 32 -> FHE.add x y = FHE.add x y'.
Proof.
  intros H. unfold FHE.add. f_equal.
  rewrite <- (Z.add_mod_idemp_r (decrypt x) (decrypt y)) by lia.
  rewrite <- (Z.add_mod_idemp_r (decrypt x) (decrypt y')) by lia.
  by rewrite H.
Qed.

Lemma add_add_uint32 x a b :
  FHE.add (FHE.add x (FHE.asEuint32 (to_uint32 a))) (FHE.asEuint32 (to_uint32 b))
  = FHE.add x (FHE.asEuint32 (to_uint32 (a + b))).
Proof.
  unfold FHE.add, FHE.asEuint32, to_uint32.
  assert (Hm : 2 ^ 32 <> 0) by (apply Z.pow_nonzero; lia). revert Hm. generalize (2 ^ 32). intros m Hm.
  unfold decrypt; simpl. f_equal.
  rewrite Z.add_mod_idemp_l, Z.add_mod_idemp_r by assumption.
  rewrite (Z.add_mod_idemp_r (default 0 x) (a + b)) by assumption.
  replace (default 0 x + a `mod` m + b) with (default 0 x + b + a `mod` m) by lia.
  rewrite Z.add_mod_idemp_r by assumption.
  f_equal. lia.
Qed.

Lemma State_eq (a b : State) :
  owner a = owner b -> gameCounter a = gameCounter b ->
  playerBalance a = playerBalance b -> games a = games b ->
  playerGames a = playerGames b -> balance a = balance b ->
  events a = events b -> grants a = grants b -> a = b.
Proof. destruct a, b; simpl; intros; by subst. Qed.

Lemma set_balance_same s : set_balance (balance s + 0) s = s.
Proof. destruct s; unfold set_balance; simpl. by rewrite Z.add_0_r. Qed.

(** ** Computations that leave a reading of the state unchanged *)

Section Preserves.
Context {X : Type} (proj : State -> X).

Lemma preserves_ret {A} (a : A) : preserves proj (ret a).
Proof. intros s a' s' H. by inversion H. Qed.

Lemma preserves_revert {A} e : preserves proj (@revert A e).
Proof. intros s a s' H. discriminate. Qed.

Lemma preserves_get : preserves proj get.
Proof. intros s a s' H. by inversion H. Qed.

Lemma preserves_modify f :
  (forall s, proj (f s) = proj s) -> preserves proj (modify f).
Proof. intros Hf s a s' H. inversion H; subst. apply Hf. Qed.

Lemma preserves_bind {A B} (m : M A) (k : A -> M B) :
  preserves proj m -> (forall a, preserves proj (k a)) -> preserves proj (bind m k).
Proof.
  intros Hm Hk s b s' H. unfold bind in H.
  destruct (m s) as [[a s1]|e] eqn:E; [|discriminate].
  rewrite (Hk a _ _ _ H). by apply (Hm _ _ _ E).
Qed.

Lemma preserves_require b e : preserves proj (require b e).
Proof. destruct b; [apply preserves_ret | apply preserves_revert]. Qed.

Lemma preserves_checked_mul a b : preserves proj (checked_mul a b).
Proof.
  unfold checked_mul. destruct (_ <=? _); [apply preserves_ret | apply preserves_revert].
Qed.

Lemma preserves_checked_inc a : preserves proj (checked_inc a).
Proof.
  unfold checked_inc. destruct (_ <=? _); [apply preserves_ret | apply preserves_revert].
Qed.

Lemma preserves_fromExternal x : preserves proj (fromExternal x).
Proof.
  unfold fromExternal. destruct (ext_valid x); [apply preserves_ret | apply preserves_revert].
Qed.

End Preserves.

Ltac preserves_step :=
  lazymatch goal with
  | |- preserves _ (bind _ _) => apply preserves_bind; [| intros ? ]
  | |- preserves _ (ret _) => apply preserves_ret
  | |- preserves _ (revert _) => apply preserves_revert
  | |- preserves _ get => apply preserves_get
  | |- preserves _ (require _ _) => apply preserves_require
  | |- preserves _ (checked_mul _ _) => apply preserves_checked_mul
  | |- preserves _ (checked_inc _) => apply preserves_checked_inc
  | |- preserves _ (fromExternal _) => apply preserves_fromExternal
  | |- preserves _ (modify _) => apply preserves_modify; intros; reflexivity
  | |- preserves _ (acl _) => unfold acl
  | |- preserves _ (emit _) => unfold emit
  | |- preserves _ (makePubliclyDecryptable ?h) =>
      unfold makePubliclyDecryptable; destruct h
  | |- preserves _ (if ?b then _ else _) => destruct b
  end.

Ltac preserves_tac := cbv zeta; repeat preserves_step.

(** ** Entry points, one at a time *)

Section Properties.

Variable keccak256 : Z -> Z -> Z -> Z -> Z.
Variable accepts_transfer : Z -> bool.

Local Abbreviation tx := (transact keccak256 accepts_transfer).
Local Abbreviation run := (body keccak256 accepts_transfer).

Implicit Types (s : State) (env : Env) (c : Call).

(** A call that carries no value runs its body on the current state. *)
Lemma transact_no_value env c s :
  msg_value env = 0 ->
  tx env c s = match run env c s with
               | Ok (_, s') => (s', Success)
               | Revert e => (s, Reverted e)
               end.
Proof.
  intros Hv. unfold transact. rewrite Hv, set_balance_same.
  by rewrite andb_false_r.
Qed.

(** A failed transaction leaves the state as it was. *)
Lemma transact_reverted env c s e :
  snd (tx env c s) = Reverted e -> fst (tx env c s) = s.
Proof.
  unfold transact.
  destruct (negb (payable c) && negb (msg_value env =? 0)); [done|].
  destruct (body _ _ _ _ _) as [[[] s']|e']; simpl; [discriminate | done].
Qed.

(** *** mintTokens *)

Lemma mintTokens_over env amount s :
  amount > MAX_MINT -> mintTokens env amount s = Revert MaxMintExceeded.
Proof.
  intros H. unfold mintTokens.
  destruct (amount >? MAX_MINT) eqn:E; [done | lia].
Qed.

Lemma mintTokens_ok env amount s :
  amount <= MAX_MINT ->
  exists s', mintTokens env amount s = Ok (tt, s')
    /\ balanceOf s' (msg_sender env)
       = FHE.add (balanceOf s (msg_sender env)) (FHE.asEuint32 (to_uint32 amount))
    /\ (forall who, who <> msg_sender env -> balanceOf s' who = balanceOf s who)
    /\ balance s' = balance s
    /\ games s' = games s
    /\ gameCounter s' = gameCounter s
    /\ playerGames s' = playerGames s.
Proof.
  intros H. unfold mintTokens.
  destruct (amount >? MAX_MINT) eqn:E; [lia|].
  eexists; split; [reflexivity|].
  repeat split; storage.
  intros who Hne. storage. by apply balanceOf_set_other.
Qed.

(** C4: the mint cap is compared against [MAX_MINT = 10000 ether = 10^22]
    although the amount is in whole ROLL.  A mint fails with
    [MaxMintExceeded] exactly when [amount > MAX_MINT]; every amount from
    10001 to 10^22 is minted, and what is credited is the amount truncated
    to 32 bits. *)
Theorem mintTokens_cap env amount s :
  msg_value env = 0 ->
  MAX_MINT = 10 ^ 22
  /\ (snd (tx env (MintTokens amount) s) = Reverted MaxMintExceeded <-> amount > MAX_MINT)
  /\ (10001 <= amount <= 10 ^ 22 ->
      exists s', tx env (MintTokens amount) s = (s', Success)
        /\ balanceOf s' (msg_sender env)
           = FHE.add (balanceOf s (msg_sender env)) (FHE.asEuint32 (amount mod 2 ^ 32))).
Proof.
  intros Hv. split; [reflexivity|]. rewrite transact_no_value by done. cbn [body].
  split; [split|].
  - intros Hrev. destruct (Z_le_gt_dec amount MAX_MINT) as [Hle|Hgt]; [|done].
    destruct (mintTokens_ok env amount s Hle) as (s' & Hrun & _).
    rewrite Hrun in Hrev. discriminate.
  - intros Hgt. by rewrite mintTokens_over.
  - intros [_ Hle]. rewrite <- MAX_MINT_value in Hle.
    destruct (mintTokens_ok env amount s Hle) as (s' & -> & Hb & _).
    by exists s'.
Qed.

(** C7, as amended: when [a + b] is within the mint cap (so that all three
    mints go through), minting [a] and then [b] leaves every account with
    the same decrypted balance as minting [a + b] at once. *)
Theorem mint_twice_is_mint_sum env a b s who :
  msg_value env = 0 -> 0 <= a -> 0 <= b -> a + b <= MAX_MINT ->
  let s_a := fst (tx env (MintTokens a) s) in
  let s_ab := fst (tx env (MintTokens b) s_a) in
  let s_sum := fst (tx env (MintTokens (a + b)) s) in
  snd (tx env (MintTokens a) s) = Success
  /\ snd (tx env (MintTokens b) s_a) = Success
  /\ snd (tx env (MintTokens (a + b)) s) = Success
  /\ decrypt (balanceOf s_ab who) = decrypt (balanceOf s_sum who).
Proof.
  intros Hv Ha Hb Hab. cbv zeta.
  rewrite !(transact_no_value env) by done. cbn [body].
  destruct (mintTokens_ok env a s) as (s1 & -> & H1 & H1' & _); [lia|]. cbn [fst snd].
  destruct (mintTokens_ok env b s1) as (s2 & -> & H2 & H2' & _); [lia|]. cbn [fst snd].
  destruct (mintTokens_ok env (a + b) s) as (s3 & -> & H3 & H3' & _); [lia|]. cbn [fst snd].
  repeat split.
  destruct (decide (who = msg_sender env)) as [->|Hne].
  - by rewrite H2, H1, H3, add_add_uint32.
  - by rewrite H2', H1', H3'.
Qed.

(** *** startGame *)

Lemma startGame_invalid env n p st s :
  ~ (n = 1 \/ n = 2 \/ n = 3) -> startGame env n p st s = Revert InvalidDiceCount.
Proof.
  intros Hn. unfold startGame, validDiceCount, bind.
  destruct ((n <? 1) || (n >? 3)) eqn:E; [done|].
  apply orb_false_elim in E as [E1 E2]. lia.
Qed.

(** C9: a dice count outside {1,2,3} makes [startGame] fail with
    [InvalidDiceCount] and nothing is written: the whole state, and in
    particular the game record at the next id, the game counter, the
    caller's balance and the caller's list of games, is as before. *)
Theorem startGame_invalid_dice_count env n p st s :
  ~ (n = 1 \/ n = 2 \/ n = 3) ->
  let s' := fst (tx env (StartGame n p st) s) in
  (msg_value env = 0 -> tx env (StartGame n p st) s = (s, Reverted InvalidDiceCount))
  /\ s' = s
  /\ games s' = games s
  /\ gameCounter s' = gameCounter s
  /\ balanceOf s' (msg_sender env) = balanceOf s (msg_sender env)
  /\ gamesOf s' (msg_sender env) = gamesOf s (msg_sender env).
Proof.
  intros Hn. cbv zeta.
  assert (Hs : fst (tx env (StartGame n p st) s) = s).
  { unfold transact; cbn [body payable negb andb].
    destruct (negb (msg_value env =? 0)); [done|].
    by rewrite startGame_invalid. }
  split.
  - intros Hv. rewrite transact_no_value by done. cbn [body].
    by rewrite startGame_invalid.
  - rewrite Hs. by repeat split.
Qed.

(** *** Value sent with a call *)

Lemma transact_payable env c s :
  payable c = true ->
  tx env c s = match run env c (set_balance (balance s + msg_value env) s) with
               | Ok (_, s') => (s', Success)
               | Revert e => (s, Reverted e)
               end.
Proof. intros Hp. unfold transact. by rewrite Hp. Qed.

(** *** swapETHForROLL *)

Lemma tokens_fit_no_overflow n :
  0 <= n -> n * 1000 / ether <= uint32_max -> n * ROLL_TOKEN_RATE <= uint256_max.
Proof.
  unfold ether, uint32_max, uint256_max, ROLL_TOKEN_RATE. intros Hn Hq.
  pose proof (Z.mul_succ_div_gt (n * 1000) (10 ^ 18) ltac:(reflexivity)).
  lia.
Qed.

Lemma swapETHForROLL_ok env s :
  0 < msg_value env ->
  msg_value env * 1000 / ether <= uint32_max ->
  exists s', swapETHForROLL env s = Ok (tt, s')
    /\ balanceOf s' (msg_sender env)
       = FHE.add (balanceOf s (msg_sender env))
                 (FHE.asEuint32 (msg_value env * 1000 / ether))
    /\ balance s' = balance s.
Proof.
  intros Hpos Hfit. unfold swapETHForROLL.
  destruct (msg_value env =? 0) eqn:E0; [lia|].
  unfold bind at 1, checked_mul.
  pose proof (tokens_fit_no_overflow (msg_value env) ltac:(lia) Hfit) as Hmul.
  destruct (msg_value env * ROLL_TOKEN_RATE <=? uint256_max) eqn:E1; [|lia].
  cbn [ret]. unfold bind at 1, require.
  replace (1 * ether) with ether by lia. unfold ROLL_TOKEN_RATE.
  set (tokens := msg_value env * 1000 / ether) in *.
  destruct (tokens <=? uint32_max) eqn:E2; [|lia].
  cbn [ret]. eexists; split; [reflexivity|].
  split; storage. do 2 f_equal. unfold to_uint32.
  apply Z.mod_small. split; [|unfold uint32_max in Hfit; lia].
  apply Z.div_pos; [lia | reflexivity].
Qed.

Lemma swapETHForROLL_too_large env s :
  0 < msg_value env ->
  msg_value env * 1000 <= uint256_max ->
  msg_value env * 1000 / ether > uint32_max ->
  swapETHForROLL env s = Revert AmountTooLarge.
Proof.
  intros Hpos Hmul Hbig. unfold swapETHForROLL.
  destruct (msg_value env =? 0) eqn:E0; [lia|].
  unfold bind at 1, checked_mul. unfold ROLL_TOKEN_RATE.
  destruct (msg_value env * 1000 <=? uint256_max) eqn:E1; [|lia].
  cbn [ret]. unfold bind at 1, require.
  replace (1 * ether) with ether by lia.
  set (tokens := msg_value env * 1000 / ether) in *.
  destruct (tokens <=? uint32_max) eqn:E2; [lia|].
  reflexivity.
Qed.

Lemma swapETHForROLL_overflow env s :
  msg_value env * 1000 > uint256_max ->
  swapETHForROLL env s = Revert (Panic 17).
Proof.
  intros Hbig. unfold swapETHForROLL.
  assert (Hu : 0 < uint256_max) by (unfold uint256_max; lia).
  destruct (msg_value env =? 0) eqn:E0; [lia|].
  unfold bind at 1, checked_mul. unfold ROLL_TOKEN_RATE.
  destruct (msg_value env * 1000 <=? uint256_max) eqn:E1; [lia|].
  reflexivity.
Qed.

(** C6, as amended: buying with no payment fails with [NoETHSent] and
    changes nothing.  With a payment of [n] wei, let
    [tokens = floor (n * 1000 / 1 ether)].  If [tokens] exceeds the 32-bit
    capacity the call fails, with [AmountTooLarge] as long as [n * 1000]
    fits 256 bits (beyond that checked arithmetic panics first).
    Otherwise the call succeeds, the contract holds [n] more wei, and the
    caller's decrypted balance becomes the old one plus [tokens] modulo
    2^32: an increase by exactly [tokens] whenever the sum still fits 32
    bits. *)
Theorem swapETHForROLL_credit env s :
  0 <= msg_value env ->
  let n := msg_value env in
  let tokens := n * 1000 / ether in
  let old := decrypt (balanceOf s (msg_sender env)) in
  (n = 0 -> tx env SwapETHForROLL s = (s, Reverted NoETHSent))
  /\ (tokens > uint32_max ->
      tx env SwapETHForROLL s
      = (s, Reverted (if n * 1000 <=? uint256_max then AmountTooLarge else Panic 17)))
  /\ (0 < n -> tokens <= uint32_max ->
      exists s', tx env SwapETHForROLL s = (s', Success)
        /\ balance s' = balance s + n
        /\ decrypt (balanceOf s' (msg_sender env)) = (old + tokens) mod 2 ^ 32
        /\ (0 <= old -> old + tokens <= uint32_max ->
            decrypt (balanceOf s' (msg_sender env)) = old + tokens)).
Proof.
  intros Hn. cbv zeta. rewrite transact_payable by done. cbn [body].
  split; [|split].
  - intros H0. unfold swapETHForROLL. by rewrite H0.
  - intros Hbig.
    assert (Hpos : 0 < msg_value env).
    { destruct (Z.eq_dec (msg_value env) 0) as [Hz|]; [|lia].
      rewrite Hz, Z.mul_0_l, Zdiv_0_l in Hbig. unfold uint32_max in Hbig. lia. }
    destruct (msg_value env * 1000 <=? uint256_max) eqn:E.
    + rewrite swapETHForROLL_too_large by lia. reflexivity.
    + rewrite swapETHForROLL_overflow by lia. reflexivity.
  - intros Hpos Hfit.
    destruct (swapETHForROLL_ok env (set_balance (balance s + msg_value env) s) Hpos Hfit)
      as (s' & -> & Hb & Hbal).
    exists s'. split; [reflexivity|]. split; [by rewrite Hbal|].
    rewrite Hb. rewrite decrypt_add. storage.
    split; [reflexivity|].
    intros Hold Hsum. apply Z.mod_small. rewrite ?decrypt_asEuint32.
    assert (0 <= msg_value env * 1000 / ether) by (apply Z.div_pos; [lia | reflexivity]).
    unfold uint32_max in Hsum. lia.
Qed.

(** *** swapROLLForETH *)

Lemma swapROLLForETH_steps env amt enc s :
  0 < amt <= uint32_max ->
  swapROLLForETH accepts_transfer env amt enc s =
  let owed := amt * ether / 1000 in
  if balance s >=? owed then
    if ext_valid enc then
      if accepts_transfer (msg_sender env) then
        Ok (tt,
            add_event (TokensSwapped (msg_sender env) owed amt false)
              (set_balance (balance s - owed)
                 (add_grant (Allow (CInt (FHE.sub (balanceOf s (msg_sender env)) (Some (ext_clear enc)))) (msg_sender env))
                    (add_grant (AllowThis (CInt (FHE.sub (balanceOf s (msg_sender env)) (Some (ext_clear enc)))))
                       (set_playerBalance (msg_sender env)
                          (FHE.sub (balanceOf s (msg_sender env)) (Some (ext_clear enc))) s)))))
      else Revert TransferFailed
    else Revert InvalidProof
  else Revert InsufficientTreasury.
Proof.
  intros [Hpos Hmax]. unfold swapROLLForETH. cbv zeta.
  unfold bind at 1, require.
  destruct (amt >? 0) eqn:E0; [|lia]. cbn [ret].
  unfold bind at 1, checked_mul.
  replace (1 * ether) with ether by lia.
  assert (Hmul : amt * ether <= uint256_max).
  { unfold ether, uint256_max, uint32_max in *. nia. }
  destruct (amt * ether <=? uint256_max) eqn:E1; [|lia]. cbn [ret].
  unfold ROLL_TOKEN_RATE. set (owed := amt * ether / 1000).
  unfold bind at 1. cbn [get]. unfold bind at 1.
  destruct (balance s >=? owed) eqn:E2; cbn [require ret revert]; [|reflexivity].
  unfold bind at 1, fromExternal.
  destruct (ext_valid enc) eqn:E3; cbn [ret revert]; [|reflexivity].
  cbv [bind get modify acl emit transfer].
  rewrite balanceOf_set_same, !balance_add_grant, balance_set_playerBalance.
  replace (owed <=? balance s) with true by lia. cbn [andb].
  destruct (accepts_transfer (msg_sender env)); reflexivity.
Qed.

(** C2, as amended: for a claimed amount [0 < amt < 2^32], selling fails
    with [InsufficientTreasury] exactly when [amt * 1 ether / 1000] exceeds
    what the contract holds.  Otherwise, once the input proof verifies and
    the caller accepts the payment, the contract's holding decreases by
    exactly [amt * 1 ether / 1000], and the caller's decrypted balance
    decreases, modulo 2^32, by the amount carried in the ciphertext, which
    nothing ties to [amt]. *)
Theorem swapROLLForETH_payout env amt enc s :
  msg_value env = 0 -> 0 < amt <= uint32_max ->
  let owed := amt * ether / 1000 in
  let sold := tx env (SwapROLLForETH amt enc) s in
  (snd sold = Reverted InsufficientTreasury <-> owed > balance s)
  /\ (owed <= balance s -> ext_valid enc = false -> sold = (s, Reverted InvalidProof))
  /\ (owed <= balance s -> ext_valid enc = true ->
      accepts_transfer (msg_sender env) = false -> sold = (s, Reverted TransferFailed))
  /\ (owed <= balance s -> ext_valid enc = true ->
      accepts_transfer (msg_sender env) = true ->
      snd sold = Success
      /\ balance (fst sold) = balance s - owed
      /\ decrypt (balanceOf (fst sold) (msg_sender env))
         = (decrypt (balanceOf s (msg_sender env)) - ext_clear enc) mod 2 ^ 32).
Proof.
  intros Hv Hamt. cbv zeta.
  rewrite transact_no_value by done. cbn [body].
  rewrite swapROLLForETH_steps by done. cbv zeta.
  set (owed := amt * ether / 1000).
  destruct (balance s >=? owed) eqn:E.
  - assert (Hle : owed <= balance s) by lia.
    split; [|split; [|split]].
    + split; [|lia].
      destruct (ext_valid enc), (accepts_transfer (msg_sender env)); discriminate.
    + by intros _ ->.
    + by intros _ -> ->.
    + intros _ -> ->. cbn [fst snd]. split; [done|]. split; storage.
  - assert (Hgt : owed > balance s) by lia.
    split; [done|]. repeat split; intros; lia.
Qed.

(** *** Which entry points move the contract's native balance *)

Lemma mintTokens_balance env amount : preserves balance (mintTokens env amount).
Proof. unfold mintTokens. preserves_tac. Qed.

Lemma write_dice_preserves {X} (proj : State -> X) gameId i v :
  (forall l s, proj (update_game gameId (with_diceValues l) s) = proj s) ->
  preserves proj (write_dice gameId i v).
Proof.
  intros Hp. unfold write_dice. apply preserves_bind; [apply preserves_get|].
  intros s0. cbv zeta. destruct (_ && _); [|apply preserves_revert].
  apply preserves_modify. intros. apply Hp.
Qed.

Lemma rollDice_preserves {X} (proj : State -> X) env gameId n i sum :
  (forall l s, proj (update_game gameId (with_diceValues l) s) = proj s) ->
  (forall x s, proj (add_grant x s) = proj s) ->
  preserves proj (rollDice keccak256 env gameId n i sum).
Proof.
  intros Hg Ha. revert i sum. induction n as [|n IH]; intros i sum; cbn [rollDice].
  - apply preserves_ret.
  - cbv zeta. apply preserves_bind; [by apply write_dice_preserves|]. intros _.
    apply preserves_bind; [apply preserves_get|]. intros s0.
    apply preserves_bind; [apply preserves_modify; intros; apply Ha|]. intros _.
    apply preserves_bind; [apply preserves_modify; intros; apply Ha|]. intros _.
    apply IH.
Qed.

Lemma startGame_balance env n p st : preserves balance (startGame env n p st).
Proof. unfold startGame, validDiceCount, acl, emit. preserves_tac. Qed.

Lemma resolveGame_balance env gameId :
  preserves balance (resolveGame keccak256 env gameId).
Proof.
  unfold resolveGame, acl, emit. preserves_tac.
  apply rollDice_preserves; reflexivity.
Qed.

Lemma makeBalancePubliclyDecryptable_balance env who :
  preserves balance (makeBalancePubliclyDecryptable env who).
Proof. unfold makeBalancePubliclyDecryptable, acl. preserves_tac. Qed.

(** C5, as amended: the contract's native balance is changed only by buy,
    sell, owner deposit, owner withdrawal, and by plain payments, which
    [receive] and [fallback] accept from anyone and add in full.  Minting,
    starting or resolving a game and publishing a balance never change
    it. *)
Theorem treasury_writers env c s :
  (balance (fst (tx env c s)) <> balance s ->
   treasury_operation c = true \/ c = Receive \/ c = Fallback)
  /\ (c = Receive \/ c = Fallback ->
      tx env c s = (set_balance (balance s + msg_value env) s, Success)).
Proof.
  split.
  - intros Hchg.
    destruct c as [amount| |amt enc| |n p st|gameId|who| | |];
      cbn [treasury_operation]; auto; exfalso; apply Hchg; clear Hchg;
      unfold transact; cbn [payable negb andb body];
      (destruct (negb (msg_value env =? 0)) eqn:Ev; [reflexivity|]);
      apply negb_false_iff, Z.eqb_eq in Ev; rewrite Ev, set_balance_same.
    + destruct (mintTokens env amount s) as [[[] s']|e] eqn:E; [|reflexivity].
      apply (mintTokens_balance _ _ _ _ _ E).
    + destruct (startGame env n p st s) as [[[] s']|e] eqn:E; [|reflexivity].
      apply (startGame_balance _ _ _ _ _ _ _ E).
    + destruct (resolveGame keccak256 env gameId s) as [[[] s']|e] eqn:E; [|reflexivity].
      apply (resolveGame_balance _ _ _ _ _ E).
    + destruct (makeBalancePubliclyDecryptable env who s) as [[[] s']|e] eqn:E; [|reflexivity].
      apply (makeBalancePubliclyDecryptable_balance _ _ _ _ _ E).
  - intros [-> | ->]; reflexivity.
Qed.

(** *** The dice loop *)

Lemma with_diceValues_id g : with_diceValues (diceValues g) g = g.
Proof. by destruct g. Qed.

Lemma diceFill_length env gameId n i arr :
  length (diceFill keccak256 env gameId n i arr) = length arr.
Proof.
  revert i arr. induction n as [|n IH]; intros i arr; cbn [diceFill]; [done|].
  by rewrite IH, length_insert.
Qed.

Lemma rollDice_ok env gameId n i sum s :
  0 <= i ->
  (Z.to_nat i + n <= length (diceValues (getGame s gameId)))%nat ->
  exists s', rollDice keccak256 env gameId n i sum s
             = Ok (diceSum keccak256 env gameId n i sum, s')
    /\ getGame s' gameId
       = with_diceValues (diceFill keccak256 env gameId n i (diceValues (getGame s gameId)))
                         (getGame s gameId).
Proof.
  revert i sum s. induction n as [|n IH]; intros i sum s Hi Hlen; cbn [rollDice diceSum diceFill].
  - exists s. split; [reflexivity|]. by rewrite with_diceValues_id.
  - cbv zeta. unfold bind at 1, write_dice. unfold bind at 1. cbn [get].
    destruct ((0 <=? i) && (i <? Z.of_nat (length (diceValues (getGame s gameId))))) eqn:E.
    2:{ apply andb_false_iff in E as [E|E]; lia. }
    cbn [modify]. unfold bind at 1. cbn [get]. unfold bind at 1, acl. cbn [modify].
    unfold bind at 1. cbn [modify].
    set (r := randomValue keccak256 env gameId i).
    set (s1 := update_game gameId _ s).
    set (s3 := add_grant _ (add_grant _ s1)).
    assert (Hg3 : getGame s3 gameId
                  = with_diceValues (<[Z.to_nat i := FHE.asEuint32 r]> (diceValues (getGame s gameId)))
                                    (getGame s gameId)).
    { subst s3 s1. storage. }
    destruct (IH (i + 1) (FHE.add sum (FHE.asEuint32 r)) s3) as (s' & Hrun & Hg').
    { lia. }
    { rewrite Hg3. cbn [diceValues with_diceValues]. rewrite length_insert. lia. }
    exists s'. split; [exact Hrun|].
    rewrite Hg', Hg3. reflexivity.
Qed.

Lemma randomValue_range env gameId i :
  1 <= randomValue keccak256 env gameId i <= 6.
Proof.
  unfold randomValue, to_uint32.
  set (h := keccak256 _ _ _ _).
  pose proof (Z.mod_pos_bound h 6 ltac:(lia)).
  rewrite (Z.mod_small (h mod 6)) by lia. lia.
Qed.

(** Filling [n] slots from index [i] turns every slot in that range into a
    face and leaves the others as they were. *)
Lemma diceFill_lookup env gameId n i arr (k : nat) :
  0 <= i -> (Z.to_nat i + n <= length arr)%nat ->
  (if decide (Z.to_nat i <= k < Z.to_nat i + n)%nat
   then exists h, diceFill keccak256 env gameId n i arr !! k = Some h /\ is_face h
   else diceFill keccak256 env gameId n i arr !! k = arr !! k).
Proof.
  revert i arr. induction n as [|n IH]; intros i arr Hi Hlen; cbn [diceFill].
  - case_decide; [lia | done].
  - specialize (IH (i + 1) (<[Z.to_nat i := FHE.asEuint32 (randomValue keccak256 env gameId i)]> arr)).
    rewrite length_insert in IH.
    specialize (IH ltac:(lia) ltac:(lia)).
    replace (Z.to_nat (i + 1)) with (S (Z.to_nat i)) in IH by lia.
    destruct (decide (S (Z.to_nat i) <= k < S (Z.to_nat i) + n)%nat) as [Hk'|Hk'];
      destruct (decide (Z.to_nat i <= k < Z.to_nat i + S n)%nat) as [Hk|Hk];
      try lia.
    + exact IH.
    + assert (k = Z.to_nat i) as -> by lia.
      rewrite IH, list_lookup_insert_eq by lia.
      eexists; split; [reflexivity|].
      eexists; split; [reflexivity|]. apply randomValue_range.
    + rewrite IH. apply list_lookup_insert_ne. lia.
Qed.

Lemma diceFill_all env gameId arr :
  Forall is_face (diceFill keccak256 env gameId (length arr) 0 arr).
Proof.
  apply Forall_lookup. intros k h Hk.
  pose proof (lookup_lt_Some _ _ _ Hk) as Hlt. rewrite diceFill_length in Hlt.
  pose proof (diceFill_lookup env gameId (length arr) 0 arr k ltac:(lia) ltac:(simpl; lia)) as H.
  case_decide as Hd; [|simpl in Hd; lia].
  destruct H as (h' & Hh' & Hface). congruence.
Qed.

(** *** resolveGame *)

Lemma resolveGame_steps env gameId s :
  resolveGame keccak256 env gameId s =
  let g := getGame s gameId in
  if negb (player g =? msg_sender env) then Revert OnlyGamePlayer
  else if isResolved g then Revert GameAlreadyResolved
  else match rollDice keccak256 env gameId (Z.to_nat (diceCount g)) 0 (FHE.asEuint32 0) s with
       | Ok (sum, s1) =>
           let won :=
             FHE.eq_bool (FHE.eq (FHE.and sum (FHE.asEuint32 1)) (FHE.asEuint32 0))
                         (FHE.eq (prediction g) (FHE.asEuint8 0)) in
           let finalPayout :=
             FHE.select won (FHE.add (stakeAmount g) (stakeAmount g)) (FHE.asEuint32 0) in
           Ok (tt, settle env gameId won finalPayout s1)
       | Revert e => Revert e
       end.
Proof.
  unfold resolveGame. cbv zeta. unfold bind at 1. cbn [get].
  destruct (negb (player (getGame s gameId) =? msg_sender env)); [reflexivity|].
  destruct (isResolved (getGame s gameId)); [reflexivity|].
  unfold bind at 1.
  destruct (rollDice _ _ _ _ _ _ s) as [[sum s1]|e]; [|reflexivity].
  cbv [bind get modify acl emit]. unfold settle. cbv zeta.
  rewrite !balanceOf_set_same. reflexivity.
Qed.

Lemma settle_game env gameId won pay s1 :
  getGame (settle env gameId won pay s1) gameId = with_isResolved true (getGame s1 gameId).
Proof. unfold settle. cbv zeta. storage. Qed.

Lemma settle_other_game env gameId won pay s1 gameId' :
  gameId <> gameId' ->
  games (settle env gameId won pay s1) !! gameId' = games s1 !! gameId'.
Proof.
  intros Hne. unfold settle. cbv zeta. rewrite games_add_event, games_update_game.
  by rewrite lookup_insert_ne.
Qed.

Lemma settle_balanceOf env gameId won pay s1 :
  balanceOf (settle env gameId won pay s1) (msg_sender env)
  = FHE.add (balanceOf s1 (msg_sender env)) pay.
Proof. unfold settle. cbv zeta. storage. Qed.

Lemma settle_balanceOf_other env gameId won pay s1 who :
  who <> msg_sender env ->
  balanceOf (settle env gameId won pay s1) who = balanceOf s1 who.
Proof.
  intros Hne. unfold settle. cbv zeta. storage. by apply balanceOf_set_other.
Qed.

(** A game whose caller is its player, that is not resolved and whose
    dice array has one slot per die, resolves. *)
Lemma resolveGame_ok env gameId s :
  let g := getGame s gameId in
  player g = msg_sender env ->
  isResolved g = false ->
  length (diceValues g) = Z.to_nat (diceCount g) ->
  exists s', resolveGame keccak256 env gameId s = Ok (tt, s')
    /\ balanceOf s' (msg_sender env)
       = FHE.add (balanceOf s (msg_sender env)) (gamePayout keccak256 env gameId g)
    /\ (forall who, who <> msg_sender env -> balanceOf s' who = balanceOf s who)
    /\ getGame s' gameId
       = with_isResolved true
           (with_diceValues (diceFill keccak256 env gameId (length (diceValues g)) 0 (diceValues g)) g)
    /\ (forall gameId', gameId <> gameId' -> games s' !! gameId' = games s !! gameId')
    /\ gameCounter s' = gameCounter s
    /\ balance s' = balance s
    /\ In (AllowThis (CBool (gameWon keccak256 env gameId g))) (grants s').
Proof.
  intros g Hp Hr Hlen. rewrite resolveGame_steps. cbv zeta. fold g.
  rewrite Hp, Z.eqb_refl, Hr. cbn [negb].
  destruct (rollDice_ok env gameId (Z.to_nat (diceCount g)) 0 (FHE.asEuint32 0) s)
    as (s1 & Hrun & Hg1); [lia | fold g; lia |].
  rewrite Hrun. eexists; split; [reflexivity|].
  pose proof (fun who =>
    rollDice_preserves (fun s => balanceOf s who) env gameId _ _ _
      ltac:(reflexivity) ltac:(reflexivity) _ _ _ Hrun) as Hbal. cbv beta in Hbal.
  split; [|split; [|split; [|split; [|split; [|split]]]]].
  - rewrite settle_balanceOf, Hbal. reflexivity.
  - intros who Hne. by rewrite settle_balanceOf_other, Hbal.
  - rewrite settle_game, Hg1. fold g. by rewrite Hlen.
  - intros gameId' Hne. rewrite settle_other_game by done.
    apply (rollDice_preserves (fun s => games s !! gameId') env gameId _ _ _
             ltac:(intros; cbv beta; rewrite games_update_game; by apply lookup_insert_ne)
             ltac:(reflexivity) _ _ _ Hrun).
  - apply (rollDice_preserves gameCounter env gameId _ _ _
             ltac:(reflexivity) ltac:(reflexivity) _ _ _ Hrun).
  - apply (rollDice_preserves balance env gameId _ _ _
             ltac:(reflexivity) ltac:(reflexivity) _ _ _ Hrun).
  - unfold settle. cbv zeta. cbn [grants add_event update_game set_game add_grant].
    rewrite !in_app_iff. left. right. left. reflexivity.
Qed.

(** C3: once a game has been resolved, a second [resolveGame] by its
    player fails with [GameAlreadyResolved], and the state after the failed
    call is the state the first resolve left, whole. *)
Theorem resolveGame_twice env1 env2 gameId s s1 :
  tx env1 (ResolveGame gameId) s = (s1, Success) ->
  msg_sender env2 = player (getGame s1 gameId) ->
  msg_value env2 = 0 ->
  player (getGame s1 gameId) = msg_sender env1
  /\ isResolved (getGame s1 gameId) = true
  /\ tx env2 (ResolveGame gameId) s1 = (s1, Reverted GameAlreadyResolved).
Proof.
  intros Hfirst Hsender Hv.
  assert (Hs1 : player (getGame s1 gameId) = msg_sender env1
                /\ isResolved (getGame s1 gameId) = true).
  { unfold transact in Hfirst. cbn [payable negb andb body] in Hfirst.
    destruct (negb (msg_value env1 =? 0)); [discriminate|].
    rewrite resolveGame_steps in Hfirst. cbv zeta in Hfirst.
    rewrite getGame_set_balance in Hfirst.
    destruct (player (getGame s gameId) =? msg_sender env1) eqn:Ep; [|discriminate].
    cbn [negb] in Hfirst.
    destruct (isResolved (getGame s gameId)); [discriminate|].
    destruct (rollDice _ _ _ _ _ _ _) as [[sum s0]|e] eqn:Hrun; [|discriminate].
    inversion Hfirst; subst s1. rewrite settle_game. split; [|reflexivity].
    cbn [player with_isResolved].
    rewrite (rollDice_preserves (fun s => player (getGame s gameId)) env1 gameId _ _ _
               ltac:(intros; cbv beta; by rewrite getGame_update_same)
               ltac:(reflexivity) _ _ _ Hrun).
    rewrite getGame_set_balance. by apply Z.eqb_eq. }
  destruct Hs1 as [Hp Hr]. split; [done|]. split; [done|].
  rewrite transact_no_value by done. cbn [body].
  rewrite resolveGame_steps. cbv zeta.
  rewrite <- Hsender, Z.eqb_refl, Hr. reflexivity.
Qed.

(** *** startGame, when the dice count is valid *)

Lemma startGame_steps env n p st s :
  startGame env n p st s =
  if (n <? 1) || (n >? 3) then Revert InvalidDiceCount
  else if negb (ext_valid p) then Revert InvalidProof
  else if negb (ext_valid st) then Revert InvalidProof
  else if gameCounter s + 1 <=? uint256_max
       then Ok (tt, started env n (ext_clear p) (ext_clear st) s)
       else Revert (Panic 17).
Proof.
  unfold startGame. cbv zeta. unfold bind at 1, validDiceCount.
  destruct ((n <? 1) || (n >? 3)); [reflexivity|]. cbn [ret].
  unfold bind at 1, fromExternal.
  destruct (ext_valid p); [|reflexivity]. cbn [ret negb].
  unfold bind at 1.
  destruct (ext_valid st); [|reflexivity]. cbn [ret negb].
  unfold bind at 1. cbn [get]. unfold bind at 1, checked_inc.
  destruct (gameCounter s + 1 <=? uint256_max); [|reflexivity]. cbn [ret].
  cbv [bind get modify acl emit].
  rewrite !update_game_update.
  do 2 f_equal.
  autorewrite with storage.
  apply State_eq; unfold started; cbv zeta;
    cbn [owner gameCounter playerBalance games playerGames balance events grants
         add_event add_grant push_playerGame set_playerBalance update_game set_game
         set_gameCounter];
    try reflexivity.
  cbn [prediction stakeAmount with_diceValues with_isResolved with_timestamp
       with_stakeAmount with_prediction].
  rewrite <- !app_assoc. reflexivity.
Qed.

(** *** Outcome and payout *)

Lemma land_1_even x : (Z.land x 1 =? 0) = Z.even x.
Proof.
  change 1 with (Z.ones 1). rewrite Z.land_ones by lia.
  change (2 ^ 1) with 2. rewrite <- Z.bit0_mod, Z.bit0_odd, <- Z.negb_odd.
  by destruct (Z.odd x).
Qed.

Lemma gameWon_parity env gameId g :
  gameWon keccak256 env gameId g
  = Bool.eqb (Z.even (decrypt (gameSum keccak256 env gameId g)))
             (decrypt (prediction g) =? 0).
Proof.
  unfold gameWon, FHE.eq_bool, FHE.eq, FHE.and, FHE.asEuint32, FHE.asEuint8. cbv zeta.
  change (decrypt (Some ?x)) with x. by rewrite land_1_even.
Qed.

Lemma gamePayout_clear env gameId g :
  decrypt (gamePayout keccak256 env gameId g)
  = if gameWon keccak256 env gameId g
    then (2 * decrypt (stakeAmount g)) mod 2 ^ 32 else 0.
Proof.
  unfold gamePayout, FHE.select. cbv zeta.
  destruct (gameWon keccak256 env gameId g); [|reflexivity].
  rewrite decrypt_add. change (decrypt (Some ?x)) with x. f_equal. lia.
Qed.

(** C10: [startGame] stores whatever prediction the ciphertext carries,
    with no check that it is 0 or 1, and [resolveGame] decides the win as
    (dice sum is even) = (prediction = 0).  So a game started with any
    nonzero prediction resolves, for every account and for the game
    itself, exactly as the same game started with prediction 1. *)
Theorem prediction_not_a_bit env env' n p stake s :
  msg_value env = 0 -> msg_value env' = 0 ->
  msg_sender env' = msg_sender env ->
  n = 1 \/ n = 2 \/ n = 3 ->
  gameCounter s < uint256_max ->
  let gameId := gameCounter s in
  let start q := tx env (StartGame n (mkExternal q true) (mkExternal stake true)) s in
  let resolve q := tx env' (ResolveGame gameId) (fst (start q)) in
  let g := getGame (fst (start p)) gameId in
  let won := gameWon keccak256 env' gameId g in
  snd (start p) = Success
  /\ prediction g = Some p
  /\ snd (resolve p) = Success
  /\ won = Bool.eqb (Z.even (decrypt (gameSum keccak256 env' gameId g))) (p =? 0)
  /\ In (AllowThis (CBool won)) (grants (fst (resolve p)))
  /\ balanceOf (fst (resolve p)) (msg_sender env)
     = FHE.add (balanceOf (fst (start p)) (msg_sender env))
               (Some (if won then (2 * stake) mod 2 ^ 32 else 0))
  /\ (p <> 0 ->
      (forall who, balanceOf (fst (resolve p)) who = balanceOf (fst (resolve 1)) who)
      /\ diceValues (getGame (fst (resolve p)) gameId)
         = diceValues (getGame (fst (resolve 1)) gameId)
      /\ isResolved (getGame (fst (resolve p)) gameId)
         = isResolved (getGame (fst (resolve 1)) gameId)).
Proof.
  intros Hv Hv' Hsender Hn Hgc. cbv beta zeta.
  assert (Hstart : forall q,
    tx env (StartGame n (mkExternal q true) (mkExternal stake true)) s
    = (started env n q stake s, Success)).
  { intros q. rewrite transact_no_value by done. cbn [body].
    rewrite startGame_steps. cbn [ext_valid ext_clear negb].
    replace ((n <? 1) || (n >? 3)) with false
      by (symmetry; apply orb_false_iff; lia).
    replace (gameCounter s + 1 <=? uint256_max) with true by lia.
    reflexivity. }
  assert (Hgame : forall q,
    getGame (started env n q stake s) (gameCounter s)
    = mkGame (msg_sender env) n (Some q) (Some stake)
             (replicate (Z.to_nat n) None) (block_timestamp env) false).
  { intros q. unfold getGame, started. cbn [games]. by rewrite lookup_insert_eq. }
  assert (Hres : forall q, exists s',
    tx env' (ResolveGame (gameCounter s)) (started env n q stake s) = (s', Success)
    /\ balanceOf s' (msg_sender env')
       = FHE.add (balanceOf (started env n q stake s) (msg_sender env'))
           (gamePayout keccak256 env' (gameCounter s)
              (getGame (started env n q stake s) (gameCounter s)))
    /\ (forall who, who <> msg_sender env' ->
        balanceOf s' who = balanceOf (started env n q stake s) who)
    /\ getGame s' (gameCounter s)
       = with_isResolved true
           (with_diceValues
              (diceFill keccak256 env' (gameCounter s) (Z.to_nat n) 0
                 (replicate (Z.to_nat n) None))
              (getGame (started env n q stake s) (gameCounter s)))
    /\ In (AllowThis (CBool (gameWon keccak256 env' (gameCounter s)
             (getGame (started env n q stake s) (gameCounter s))))) (grants s')).
  { intros q.
    destruct (resolveGame_ok env' (gameCounter s) (started env n q stake s))
      as (s' & Hrun & Hb & Hb' & Hg & _ & _ & _ & Hin).
    - by rewrite Hgame.
    - by rewrite Hgame.
    - rewrite Hgame. cbn [diceValues diceCount]. apply length_replicate.
    - exists s'. rewrite transact_no_value by done. cbn [body]. rewrite Hrun.
      split; [reflexivity|]. split; [exact Hb|]. split; [exact Hb'|].
      split; [|exact Hin].
      rewrite Hg, Hgame. cbn [diceValues]. by rewrite length_replicate. }
  rewrite !Hstart. cbn [fst snd].
  destruct (Hres p) as (sp & Hrp & Hbp & Hbp' & Hgp & Hinp).
  destruct (Hres 1) as (s1 & Hr1 & Hb1 & Hb1' & Hg1 & _).
  rewrite Hrp, Hr1. cbn [fst snd]. rewrite Hsender in *.
  assert (Hpay : forall q,
    gamePayout keccak256 env' (gameCounter s) (getGame (started env n q stake s) (gameCounter s))
    = Some (if gameWon keccak256 env' (gameCounter s)
                 (getGame (started env n q stake s) (gameCounter s))
            then (2 * stake) mod 2 ^ 32 else 0)).
  { intros q. rewrite Hgame. unfold gamePayout, FHE.select, FHE.add. cbv zeta.
    f_equal.
    match goal with |- (if ?b then _ else _) = _ => destruct b end; [|reflexivity].
    cbn [stakeAmount]. rewrite !decrypt_Some. f_equal. lia. }
  split; [reflexivity|]. split; [by rewrite Hgame|]. split; [reflexivity|].
  split; [by rewrite gameWon_parity, Hgame|]. split; [exact Hinp|].
  split; [by rewrite Hbp, Hpay|].
  intros Hp0.
  assert (Hwon : gameWon keccak256 env' (gameCounter s)
                   (getGame (started env n p stake s) (gameCounter s))
                 = gameWon keccak256 env' (gameCounter s)
                   (getGame (started env n 1 stake s) (gameCounter s))).
  { rewrite !gameWon_parity, !Hgame. unfold gameSum. cbn [prediction diceCount].
    change (decrypt (Some ?x)) with x.
    replace (p =? 0) with false by lia. reflexivity. }
  split; [|split].
  - intros who. destruct (decide (who = msg_sender env)) as [->|Hne].
    + rewrite Hbp, Hb1, !Hpay, Hwon. reflexivity.
    + rewrite Hbp', Hb1' by done. unfold balanceOf, started. reflexivity.
  - rewrite Hgp, Hg1. reflexivity.
  - rewrite Hgp, Hg1. reflexivity.
Qed.

(** *** The game table across one transaction *)

Lemma resolveGame_games env gameId s g :
  games s !! gameId = Some g ->
  player g = msg_sender env ->
  isResolved g = false ->
  length (diceValues g) = Z.to_nat (diceCount g) ->
  exists s', resolveGame keccak256 env gameId s = Ok (tt, s')
    /\ gameCounter s' = gameCounter s
    /\ games s' = <[gameId := with_isResolved true
                    (with_diceValues
                       (diceFill keccak256 env gameId (length (diceValues g)) 0 (diceValues g))
                       g)]> (games s).
Proof.
  intros Hlook Hp Hr Hlen.
  assert (Hg : getGame s gameId = g) by (unfold getGame; by rewrite Hlook).
  destruct (resolveGame_ok env gameId s) as (s' & Hrun & _ & _ & Hg' & Hothers & Hgc & _);
    rewrite ?Hg; try done.
  rewrite Hg in Hg'.
  exists s'. split; [exact Hrun|]. split; [exact Hgc|].
  apply map_eq. intros k. destruct (decide (gameId = k)) as [<-|Hne].
  - rewrite lookup_insert_eq. unfold getGame in Hg'.
    destruct (games s' !! gameId) as [y|].
    + change (default zeroGame (Some y)) with y in Hg'. by rewrite Hg'.
    + apply (f_equal isResolved) in Hg'. discriminate.
  - rewrite lookup_insert_ne by done. by apply Hothers.
Qed.

Lemma other_calls_games env c :
  game_call c = false ->
  preserves games (run env c) /\ preserves gameCounter (run env c).
Proof.
  destruct c; cbn [game_call body]; intros Hc; try discriminate;
    unfold mintTokens, swapETHForROLL, swapROLLForETH, addTreasuryETH,
      makeBalancePubliclyDecryptable, withdrawETH, receive, fallback,
      onlyOwner, transfer, acl, emit;
    split; preserves_tac.
Qed.

(** What one transaction does to the game table and the counter. *)
Lemma transact_games env c s :
  Inv s -> valid_env env ->
  let s' := fst (tx env c s) in
  (games s' = games s /\ gameCounter s' = gameCounter s)
  \/ (exists n p st,
        c = StartGame n p st
        /\ snd (tx env c s) = Success
        /\ (n = 1 \/ n = 2 \/ n = 3)
        /\ gameCounter s' = gameCounter s + 1
        /\ games s' = <[gameCounter s :=
                          mkGame (msg_sender env) n (Some (ext_clear p)) (Some (ext_clear st))
                                 (replicate (Z.to_nat n) None) (block_timestamp env) false]>
                        (games s))
  \/ (exists gameId g,
        c = ResolveGame gameId
        /\ snd (tx env c s) = Success
        /\ games s !! gameId = Some g
        /\ isResolved g = false
        /\ gameCounter s' = gameCounter s
        /\ games s' = <[gameId := with_isResolved true
                        (with_diceValues
                           (diceFill keccak256 env gameId (length (diceValues g)) 0 (diceValues g))
                           g)]> (games s)).
Proof.
  intros (Hgc & Hfree & Hslots & _) [Hsender Hvalue]. cbv zeta.
  destruct (game_call c) eqn:Hc.
  - destruct c as [| | | |n p st|gameId| | | |]; try discriminate.
    + (* startGame *)
      unfold transact. cbn [payable negb andb body].
      destruct (msg_value env =? 0) eqn:Ev; cbn [negb]; [|by left].
      apply Z.eqb_eq in Ev. rewrite Ev, set_balance_same, startGame_steps.
      destruct ((n <? 1) || (n >? 3)) eqn:En; [by left|].
      destruct (ext_valid p); cbn [negb]; [|by left].
      destruct (ext_valid st); cbn [negb]; [|by left].
      destruct (gameCounter s + 1 <=? uint256_max); [|by left].
      right. left. exists n, p, st.
      apply orb_false_iff in En as [En1 En2].
      repeat split; try reflexivity. lia.
    + (* resolveGame *)
      unfold transact. cbn [payable negb andb body].
      destruct (msg_value env =? 0) eqn:Ev; cbn [negb]; [|by left].
      apply Z.eqb_eq in Ev. rewrite Ev, set_balance_same.
      destruct (player (getGame s gameId) =? msg_sender env) eqn:Ep.
      2:{ rewrite resolveGame_steps. cbv zeta. rewrite Ep. by left. }
      destruct (isResolved (getGame s gameId)) eqn:Er.
      1:{ rewrite resolveGame_steps. cbv zeta. rewrite Ep, Er. by left. }
      apply Z.eqb_eq in Ep.
      destruct (games s !! gameId) as [g|] eqn:Hlook.
      2:{ unfold getGame in Ep. rewrite Hlook in Ep. cbn in Ep. congruence. }
      assert (Hg : getGame s gameId = g) by (unfold getGame; by rewrite Hlook).
      rewrite Hg in Ep, Er.
      destruct (Hslots _ _ Hlook) as (Hlen & _).
      destruct (resolveGame_games env gameId s g Hlook Ep Er Hlen) as (s' & Hrun & Hgc' & Hgames).
      rewrite Hrun. cbn [fst snd].
      right. right. exists gameId, g. by repeat split.
  - left. destruct (other_calls_games env c Hc) as [Hg Hn].
    unfold transact.
    destruct (negb (payable c) && negb (msg_value env =? 0)); [done|].
    destruct (body _ _ _ _ _) as [[[] s']|e] eqn:E; [|done]. cbn [fst].
    by rewrite (Hg _ _ _ E), (Hn _ _ _ E).
Qed.

Lemma slots_ok_started env n p st :
  msg_sender env <> 0 -> n = 1 \/ n = 2 \/ n = 3 ->
  slots_ok (mkGame (msg_sender env) n p st (replicate (Z.to_nat n) None)
                   (block_timestamp env) false).
Proof.
  intros Hs Hn. unfold slots_ok. cbn [diceValues diceCount player isResolved].
  split; [apply length_replicate|]. split; [lia|]. split; [done|].
  split; [|discriminate]. intros _. apply Forall_replicate. reflexivity.
Qed.

Lemma slots_ok_resolved env gameId g :
  slots_ok g ->
  slots_ok (with_isResolved true
              (with_diceValues
                 (diceFill keccak256 env gameId (length (diceValues g)) 0 (diceValues g)) g)).
Proof.
  intros (Hlen & Hn & Hp & _). unfold slots_ok.
  cbn [diceValues diceCount player isResolved with_isResolved with_diceValues].
  split; [by rewrite diceFill_length|]. split; [done|]. split; [done|].
  split; [discriminate|]. intros _. apply diceFill_all.
Qed.

Lemma Inv_constructor deployer funds : Inv (constructor deployer funds).
Proof.
  unfold Inv, constructor. cbn [gameCounter games].
  split; [lia|]. split; [intros; apply lookup_empty|].
  split; [intros k g; by rewrite lookup_empty | intros; lia].
Qed.

Lemma Inv_transact env c s :
  Inv s -> valid_env env -> Inv (fst (tx env c s)).
Proof.
  intros HI Hv.
  destruct (transact_games env c s HI Hv)
    as [[Hg Hgc] | [(n & p & st & -> & _ & Hn & Hgc & Hg) | (gameId & g & -> & _ & Hlook & Hr & Hgc & Hg)]];
    destruct HI as (Hpos & Hfree & Hslots & Hdense); destruct Hv as [Hs _];
    unfold Inv; rewrite Hg, Hgc.
  - done.
  - split; [lia|]. split; [|split].
    + intros k Hk. rewrite lookup_insert_ne by lia. apply Hfree. lia.
    + intros k g. destruct (decide (gameCounter s = k)) as [<-|Hne].
      * rewrite lookup_insert_eq. intros [= <-]. by apply slots_ok_started.
      * rewrite lookup_insert_ne by done. apply Hslots.
    + intros k Hk. destruct (decide (gameCounter s = k)) as [<-|Hne].
      * rewrite lookup_insert_eq. by eexists.
      * rewrite lookup_insert_ne by done. apply Hdense. lia.
  - split; [done|]. split; [|split].
    + intros k Hk. destruct (decide (gameId = k)) as [<-|Hne].
      * rewrite (Hfree gameId Hk) in Hlook. discriminate.
      * rewrite lookup_insert_ne by done. by apply Hfree.
    + intros k g'. destruct (decide (gameId = k)) as [<-|Hne].
      * rewrite lookup_insert_eq. intros [= <-]. apply slots_ok_resolved. by eapply Hslots.
      * rewrite lookup_insert_ne by done. apply Hslots.
    + intros k Hk. destruct (decide (gameId = k)) as [<-|Hne].
      * rewrite lookup_insert_eq. by eexists.
      * rewrite lookup_insert_ne by done. by apply Hdense.
Qed.

Lemma reachable_Inv s : reachable keccak256 accepts_transfer s -> Inv s.
Proof.
  induction 1 as [deployer funds | s env c _ IH Hv].
  - apply Inv_constructor.
  - by apply Inv_transact.
Qed.


End Properties.

(** * Further properties of the entry points *)

Section Beyond.

Variable keccak256 : Z -> Z -> Z -> Z -> Z.
Variable accepts_transfer : Z -> bool.

Local Abbreviation tx := (transact keccak256 accepts_transfer).
Local Abbreviation run := (body keccak256 accepts_transfer).

Implicit Types (s : State) (env : Env) (c : Call).

(** ** Closed forms of the remaining entry points *)

Lemma mintTokens_steps env amount s :
  mintTokens env amount s =
  if amount >? MAX_MINT then Revert MaxMintExceeded
  else
    let credited :=
      FHE.add (balanceOf s (msg_sender env)) (FHE.asEuint32 (to_uint32 amount)) in
    Ok (tt, add_event (TokensMinted (msg_sender env) amount)
              (add_grant (Allow (CInt credited) (msg_sender env))
                 (add_grant (AllowThis (CInt credited))
                    (set_playerBalance (msg_sender env) credited s)))).
Proof.
  unfold mintTokens. cbv zeta.
  destruct (amount >? MAX_MINT); [reflexivity|].
  cbv [bind get modify acl emit]. rewrite balanceOf_set_same. reflexivity.
Qed.

Lemma swapETHForROLL_steps env s :
  swapETHForROLL env s =
  if msg_value env =? 0 then Revert NoETHSent
  else if msg_value env * 1000 <=? uint256_max then
    let tokens := msg_value env * 1000 / ether in
    if tokens <=? uint32_max then
      let credited :=
        FHE.add (balanceOf s (msg_sender env)) (FHE.asEuint32 (to_uint32 tokens)) in
      Ok (tt, add_event (TokensSwapped (msg_sender env) (msg_value env) tokens true)
                (add_grant (Allow (CInt credited) (msg_sender env))
                   (add_grant (AllowThis (CInt credited))
                      (set_playerBalance (msg_sender env) credited s))))
    else Revert AmountTooLarge
  else Revert (Panic 17).
Proof.
  unfold swapETHForROLL. cbv zeta.
  destruct (msg_value env =? 0); [reflexivity|].
  unfold bind at 1, checked_mul. unfold ROLL_TOKEN_RATE.
  destruct (msg_value env * 1000 <=? uint256_max); [|reflexivity]. cbn [ret].
  replace (1 * ether) with ether by lia.
  unfold bind at 1, require.
  destruct (msg_value env * 1000 / ether <=? uint32_max); [|reflexivity]. cbn [ret].
  cbv [bind get modify acl emit]. rewrite balanceOf_set_same. reflexivity.
Qed.

Lemma addTreasuryETH_steps env s :
  addTreasuryETH env s =
  if negb (msg_sender env =? owner s) then Revert OnlyOwner
  else if msg_value env >? 0
       then Ok (tt, add_event (TreasuryFunded (msg_sender env) (msg_value env)) s)
       else Revert MustSendETH.
Proof.
  unfold addTreasuryETH, onlyOwner. cbv [bind get].
  destruct (negb (msg_sender env =? owner s)); [reflexivity|]. cbn [ret].
  unfold require. destruct (msg_value env >? 0); reflexivity.
Qed.

Lemma withdrawETH_steps env s :
  withdrawETH accepts_transfer env s =
  if negb (msg_sender env =? owner s) then Revert OnlyOwner
  else if accepts_transfer (owner s) then Ok (tt, set_balance 0 s)
       else Revert TransferFailed.
Proof.
  unfold withdrawETH, onlyOwner, transfer. cbv [bind get].
  destruct (negb (msg_sender env =? owner s)); [reflexivity|]. cbn [ret].
  rewrite Z.leb_refl. cbn [andb].
  destruct (accepts_transfer (owner s)); [|reflexivity].
  cbv [modify]. by rewrite Z.sub_diag.
Qed.

Lemma makeBalancePubliclyDecryptable_steps env who s :
  makeBalancePubliclyDecryptable env who s =
  if (msg_sender env =? who) || (msg_sender env =? owner s)
  then match balanceOf s who with
       | Some v => Ok (tt, add_grant (MakePubliclyDecryptable (CInt (Some v))) s)
       | None => Revert SenderNotAllowed
       end
  else Revert Unauthorized.
Proof.
  unfold makeBalancePubliclyDecryptable, makePubliclyDecryptable. cbv [bind get require].
  destruct ((msg_sender env =? who) || (msg_sender env =? owner s)); [|reflexivity].
  cbn [ret]. by destruct (balanceOf s who).
Qed.

(** ** The treasury: deposits and withdrawal *)

(** X1: [addTreasuryETH] is for the owner only, and the owner check comes
    first: a payment by anyone else is rejected with [OnlyOwner] and kept
    out of the contract.  The owner must send something; what is sent is
    added to the balance and recorded by one [TreasuryFunded] event, and
    nothing else is written. *)
Theorem addTreasuryETH_outcome env s :
  0 <= msg_value env ->
  let after := tx env AddTreasuryETH s in
  (msg_sender env <> owner s -> after = (s, Reverted OnlyOwner))
  /\ (msg_sender env = owner s -> msg_value env = 0 -> after = (s, Reverted MustSendETH))
  /\ (msg_sender env = owner s -> 0 < msg_value env ->
      snd after = Success
      /\ balance (fst after) = balance s + msg_value env
      /\ events (fst after) = events s ++ [TreasuryFunded (msg_sender env) (msg_value env)]
      /\ playerBalance (fst after) = playerBalance s
      /\ games (fst after) = games s
      /\ playerGames (fst after) = playerGames s
      /\ gameCounter (fst after) = gameCounter s
      /\ grants (fst after) = grants s
      /\ owner (fst after) = owner s).
Proof.
  intros Hv. cbv zeta. rewrite transact_payable by done. cbn [body].
  rewrite addTreasuryETH_steps.
  change (owner (set_balance _ s)) with (owner s).
  split; [|split].
  - intros Hne. replace (msg_sender env =? owner s) with false by lia. reflexivity.
  - intros -> H0. rewrite Z.eqb_refl, H0. reflexivity.
  - intros -> Hpos. rewrite Z.eqb_refl. cbn [negb].
    replace (msg_value env >? 0) with true by lia. cbn [fst snd].
    by repeat split.
Qed.

(** X2: deposits by the owner add up: after any sequence of them the
    balance has grown by the sum of the values sent, and no encrypted
    balance or game has changed. *)
Theorem deposits_accumulate envs s :
  Forall (fun env => msg_sender env = owner s /\ 0 < msg_value env) envs ->
  let s' := replay keccak256 accepts_transfer (map (fun env => (env, AddTreasuryETH)) envs) s in
  balance s' = balance s + sumZ (map msg_value envs)
  /\ playerBalance s' = playerBalance s
  /\ games s' = games s
  /\ owner s' = owner s.
Proof.
  cbv zeta. revert s. induction envs as [|env envs IH]; intros s Hall.
  - cbn. by rewrite Z.add_0_r.
  - apply Forall_cons in Hall as [[Hown Hpos] Hall].
    cbn [map replay foldl fst snd sumZ foldr].
    rewrite transact_payable by done. cbn [body].
    rewrite addTreasuryETH_steps.
    change (owner (set_balance _ s)) with (owner s).
    rewrite Hown, Z.eqb_refl. cbn [negb].
    replace (msg_value env >? 0) with true by lia. cbn [fst].
    set (s1 := add_event _ _).
    destruct (IH s1) as (Hb & Hp & Hg & Ho).
    { eapply Forall_impl; [exact Hall|]. intros e He. exact He. }
    unfold replay in *. rewrite Hb, Hp, Hg, Ho.
    subst s1. autorewrite with storage.
    repeat split. unfold sumZ. lia.
Qed.

(** X3: [withdrawETH] is for the owner only.  When the owner accepts the
    payment the whole balance leaves the contract, which then holds
    exactly zero, while every encrypted balance and every game stays as it
    was; when the owner rejects it, nothing changes. *)
Theorem withdrawETH_outcome env s :
  msg_value env = 0 ->
  let after := tx env WithdrawETH s in
  (msg_sender env <> owner s -> after = (s, Reverted OnlyOwner))
  /\ (msg_sender env = owner s -> accepts_transfer (owner s) = false ->
      after = (s, Reverted TransferFailed))
  /\ (msg_sender env = owner s -> accepts_transfer (owner s) = true ->
      after = (set_balance 0 s, Success)
      /\ balance (fst after) = 0
      /\ playerBalance (fst after) = playerBalance s
      /\ games (fst after) = games s
      /\ events (fst after) = events s).
Proof.
  intros Hv. cbv zeta. rewrite transact_no_value by done. cbn [body].
  rewrite withdrawETH_steps.
  split; [|split].
  - intros Hne. replace (msg_sender env =? owner s) with false by lia. reflexivity.
  - intros -> Hacc. by rewrite Z.eqb_refl, Hacc.
  - intros -> Hacc. rewrite Z.eqb_refl, Hacc. by repeat split.
Qed.

(** X4: the withdrawal takes the backing of the tokens with it: after it
    every encrypted balance is still what it was, yet any sale, of any
    amount and by anyone, fails with [InsufficientTreasury] until the
    contract is paid again. *)
Theorem no_sale_after_withdrawal env env' amt enc s :
  msg_value env = 0 -> msg_value env' = 0 ->
  msg_sender env = owner s -> accepts_transfer (owner s) = true ->
  0 < amt <= uint32_max ->
  let s1 := fst (tx env WithdrawETH s) in
  snd (tx env WithdrawETH s) = Success
  /\ (forall who, balanceOf s1 who = balanceOf s who)
  /\ tx env' (SwapROLLForETH amt enc) s1 = (s1, Reverted InsufficientTreasury).
Proof.
  intros Hv Hv' Hown Hacc Hamt. cbv zeta.
  rewrite (transact_no_value _ _ env) by done. cbn [body].
  rewrite withdrawETH_steps, Hown, Z.eqb_refl, Hacc. cbn [negb fst snd].
  split; [reflexivity|]. split; [reflexivity|].
  rewrite transact_no_value by done. cbn [body].
  rewrite swapROLLForETH_steps by done. cbv zeta.
  rewrite balance_set_balance.
  assert (0 < amt * ether / 1000).
  { apply Z.div_str_pos. unfold ether. lia. }
  replace (0 >=? amt * ether / 1000) with false by lia. reflexivity.
Qed.

(** ** Ownership *)

Lemma body_owner env c : preserves owner (run env c).
Proof.
  destruct c; cbn [body];
    unfold mintTokens, swapETHForROLL, swapROLLForETH, addTreasuryETH, startGame,
      resolveGame, makeBalancePubliclyDecryptable, withdrawETH, receive, fallback,
      onlyOwner, validDiceCount, transfer;
    preserves_tac.
  apply rollDice_preserves; reflexivity.
Qed.

Lemma transact_owner env c s : owner (fst (tx env c s)) = owner s.
Proof.
  unfold transact.
  destruct (negb (payable c) && negb (msg_value env =? 0)); [reflexivity|].
  destruct (body _ _ _ _ _) as [[[] s']|e] eqn:E; [|reflexivity].
  apply (body_owner _ _ _ _ _ E).
Qed.

(** X5: ownership never moves.  No entry point writes [owner]: whatever
    transactions follow the deployment, sent by whomever, the owner is the
    deployer. *)
Theorem owner_is_the_deployer deployer funds txs :
  owner (replay keccak256 accepts_transfer txs (constructor deployer funds)) = deployer.
Proof.
  assert (H : forall s, owner (replay keccak256 accepts_transfer txs s) = owner s).
  { induction txs as [|[env c] txs IH]; intros s; [reflexivity|].
    cbn [replay foldl fst snd]. unfold replay in IH. by rewrite IH, transact_owner. }
  by rewrite H.
Qed.

(** ** Starting a game *)

Lemma started_game env n p stake s :
  getGame (started env n p stake s) (gameCounter s)
  = mkGame (msg_sender env) n (Some p) (Some stake)
           (replicate (Z.to_nat n) None) (block_timestamp env) false.
Proof. unfold getGame, started. cbn [games]. by rewrite lookup_insert_eq. Qed.

Lemma transact_startGame env n p st s :
  msg_value env = 0 -> n = 1 \/ n = 2 \/ n = 3 ->
  tx env (StartGame n p st) s =
  if negb (ext_valid p) || negb (ext_valid st) then (s, Reverted InvalidProof)
  else if gameCounter s + 1 <=? uint256_max
       then (started env n (ext_clear p) (ext_clear st) s, Success)
       else (s, Reverted (Panic 17)).
Proof.
  intros Hv Hn. rewrite transact_no_value by done. cbn [body].
  rewrite startGame_steps.
  replace ((n <? 1) || (n >? 3)) with false by (symmetry; apply orb_false_iff; lia).
  destruct (ext_valid p), (ext_valid st); cbn [negb orb]; try reflexivity.
  destruct (gameCounter s + 1 <=? uint256_max); reflexivity.
Qed.

(** X6: with a valid dice count, [startGame] fails only on a rejected input
    proof (or a full counter), changing nothing.  Otherwise it takes the
    next id, stores the game as submitted with one null slot per die,
    appends the id to the caller's list, and debits the stake from the
    caller's encrypted balance with no check that the balance covers it:
    the new balance is the old one minus the stake modulo 2^32.  Other
    accounts, other games and the treasury are not touched. *)
Theorem startGame_outcome env n p st s :
  msg_value env = 0 -> n = 1 \/ n = 2 \/ n = 3 -> gameCounter s < uint256_max ->
  let after := tx env (StartGame n p st) s in
  let gameId := gameCounter s in
  let sender := msg_sender env in
  (ext_valid p = false \/ ext_valid st = false -> after = (s, Reverted InvalidProof))
  /\ (ext_valid p = true -> ext_valid st = true ->
      snd after = Success
      /\ gameCounter (fst after) = gameId + 1
      /\ getGame (fst after) gameId
         = mkGame sender n (Some (ext_clear p)) (Some (ext_clear st))
                  (replicate (Z.to_nat n) None) (block_timestamp env) false
      /\ (forall other, other <> gameId -> games (fst after) !! other = games s !! other)
      /\ gamesOf (fst after) sender = gamesOf s sender ++ [gameId]
      /\ decrypt (balanceOf (fst after) sender)
         = (decrypt (balanceOf s sender) - ext_clear st) mod 2 ^ 32
      /\ (forall who, who <> sender ->
          balanceOf (fst after) who = balanceOf s who
          /\ gamesOf (fst after) who = gamesOf s who)
      /\ balance (fst after) = balance s).
Proof.
  intros Hv Hn Hgc. cbv zeta. rewrite transact_startGame by done.
  split.
  - intros [-> | ->]; cbn [negb orb]; [reflexivity|].
    by rewrite orb_true_r.
  - intros -> ->. cbn [negb orb].
    replace (gameCounter s + 1 <=? uint256_max) with true by lia. cbn [fst snd].
    split; [reflexivity|]. split; [reflexivity|]. split; [apply started_game|].
    split.
    { intros other Hne. unfold started. cbn [games]. by rewrite lookup_insert_ne. }
    split.
    { unfold gamesOf at 1, started. cbn [playerGames]. by rewrite lookup_insert_eq. }
    split.
    { unfold balanceOf at 1, started. cbn [playerBalance]. unfold FHE.sub, sstore.
      rewrite lookup_insert_eq. reflexivity. }
    split; [|reflexivity].
    intros who Hne. split.
    + unfold balanceOf at 1, started. cbn [playerBalance]. unfold FHE.sub, sstore.
      by rewrite lookup_insert_ne.
    + unfold gamesOf at 1, started. cbn [playerGames]. by rewrite lookup_insert_ne.
Qed.

(** ** Resolving a game *)

(** X7: [resolveGame] answers [OnlyGamePlayer] to anyone but the game's
    player, before it looks at the resolved flag.  A game id that was never
    allocated has no player, so in every reachable state resolving it fails
    the same way for every caller; the declared error [GameNotFound] is
    never raised.  Nothing changes in either case. *)
Theorem resolveGame_only_player env gameId s :
  msg_value env = 0 ->
  (player (getGame s gameId) <> msg_sender env ->
   tx env (ResolveGame gameId) s = (s, Reverted OnlyGamePlayer))
  /\ (reachable keccak256 accepts_transfer s -> valid_env env ->
      gameId < 0 \/ gameCounter s <= gameId ->
      tx env (ResolveGame gameId) s = (s, Reverted OnlyGamePlayer)).
Proof.
  intros Hv.
  assert (Hother : player (getGame s gameId) <> msg_sender env ->
                   tx env (ResolveGame gameId) s = (s, Reverted OnlyGamePlayer)).
  { intros Hne. rewrite transact_no_value by done. cbn [body].
    rewrite resolveGame_steps. cbv zeta.
    replace (player (getGame s gameId) =? msg_sender env) with false by lia.
    reflexivity. }
  split; [exact Hother|].
  intros Hreach [Hsender _] Hid. apply Hother.
  destruct (reachable_Inv keccak256 accepts_transfer s Hreach) as (_ & Hfree & _).
  unfold getGame. rewrite (Hfree gameId Hid). cbn. congruence.
Qed.

Lemma transact_start_resolve env env' n p stake s :
  msg_value env = 0 -> msg_value env' = 0 ->
  msg_sender env' = msg_sender env ->
  n = 1 \/ n = 2 \/ n = 3 ->
  gameCounter s < uint256_max ->
  let s1 := started env n p stake s in
  let g := mkGame (msg_sender env) n (Some p) (Some stake)
                  (replicate (Z.to_nat n) None) (block_timestamp env) false in
  tx env (StartGame n (mkExternal p true) (mkExternal stake true)) s = (s1, Success)
  /\ getGame s1 (gameCounter s) = g
  /\ exists s2,
      tx env' (ResolveGame (gameCounter s)) s1 = (s2, Success)
      /\ balanceOf s2 (msg_sender env)
         = FHE.add (balanceOf s1 (msg_sender env)) (gamePayout keccak256 env' (gameCounter s) g)
      /\ (forall who, who <> msg_sender env -> balanceOf s2 who = balanceOf s1 who)
      /\ getGame s2 (gameCounter s)
         = with_isResolved true
             (with_diceValues
                (diceFill keccak256 env' (gameCounter s) (Z.to_nat n) 0
                   (replicate (Z.to_nat n) None)) g)
      /\ balance s2 = balance s.
Proof.
  intros Hv Hv' Hsender Hn Hgc. cbv zeta.
  split.
  { rewrite transact_startGame by done. cbn [ext_valid ext_clear negb orb].
    by replace (gameCounter s + 1 <=? uint256_max) with true by lia. }
  split; [apply started_game|].
  destruct (resolveGame_ok keccak256 env' (gameCounter s) (started env n p stake s))
    as (s2 & Hrun & Hb & Hb' & Hg & _ & _ & Hbal & _).
  - by rewrite started_game.
  - by rewrite started_game.
  - rewrite started_game. cbn [diceValues diceCount]. apply length_replicate.
  - exists s2. rewrite transact_no_value by done. cbn [body]. rewrite Hrun.
    rewrite Hsender in *. rewrite started_game in *.
    split; [reflexivity|]. split; [exact Hb|]. split; [exact Hb'|].
    split; [|by rewrite Hbal].
    rewrite Hg. cbn [diceValues]. by rewrite length_replicate.
Qed.

(** X8: the net effect of a round.  For a game staked and then resolved by
    the same player, the decrypted balance ends, modulo 2^32, at the
    balance before the stake plus the stake when the game is won and minus
    the stake when it is lost; the treasury is not involved. *)
Theorem stake_then_resolve env env' n p stake s :
  msg_value env = 0 -> msg_value env' = 0 ->
  msg_sender env' = msg_sender env ->
  n = 1 \/ n = 2 \/ n = 3 ->
  gameCounter s < uint256_max ->
  let gameId := gameCounter s in
  let s1 := fst (tx env (StartGame n (mkExternal p true) (mkExternal stake true)) s) in
  let s2 := fst (tx env' (ResolveGame gameId) s1) in
  let won := gameWon keccak256 env' gameId (getGame s1 gameId) in
  let old := decrypt (balanceOf s (msg_sender env)) in
  snd (tx env' (ResolveGame gameId) s1) = Success
  /\ decrypt (balanceOf s2 (msg_sender env))
     = (if won then old + stake else old - stake) mod 2 ^ 32
  /\ balance s2 = balance s.
Proof.
  intros Hv Hv' Hsender Hn Hgc. cbv zeta.
  destruct (transact_start_resolve env env' n p stake s Hv Hv' Hsender Hn Hgc)
    as (Hstart & Hgame & s2 & Hres & Hb & _ & _ & Hbal).
  rewrite Hstart. cbn [fst]. rewrite Hres, Hgame. cbn [fst snd].
  split; [reflexivity|]. split; [|exact Hbal].
  rewrite Hb, decrypt_add, gamePayout_clear. cbn [stakeAmount]. rewrite decrypt_Some.
  assert (Hdebit : decrypt (balanceOf (started env n p stake s) (msg_sender env))
                   = (decrypt (balanceOf s (msg_sender env)) - stake) mod 2 ^ 32).
  { unfold balanceOf at 1, started. cbn [playerBalance]. unfold FHE.sub, sstore.
    rewrite lookup_insert_eq. reflexivity. }
  rewrite Hdebit.
  set (old := decrypt (balanceOf s (msg_sender env))).
  destruct (gameWon _ _ _ _).
  - rewrite Z.add_mod_idemp_l, Z.add_mod_idemp_r by lia. f_equal. lia.
  - rewrite Z.add_0_r, Z.mod_mod by lia. reflexivity.
Qed.

(** ** Reading a game *)

(** X9: what goes into a game comes out of its readers.  To the player the
    three guarded readers return the prediction and the stake as submitted,
    before and after resolution, and the dice array: null slots while the
    game is open, one face per die once it is resolved.  To any other
    caller they answer [OnlyGamePlayer].  The open reader [getGame] shows
    everyone the player, the dice count and the creation time, which
    resolution leaves alone, and the resolved flag. *)
Theorem game_views_round_trip env env' viewer n p stake s :
  msg_value env = 0 -> msg_value env' = 0 ->
  msg_sender env' = msg_sender env ->
  n = 1 \/ n = 2 \/ n = 3 ->
  gameCounter s < uint256_max ->
  let gameId := gameCounter s in
  let s1 := fst (tx env (StartGame n (mkExternal p true) (mkExternal stake true)) s) in
  let s2 := fst (tx env' (ResolveGame gameId) s1) in
  (getGamePrediction env s1 gameId = Ok (Some p)
   /\ getGameStake env s1 gameId = Ok (Some stake)
   /\ getGameDiceValues env s1 gameId = Ok (replicate (Z.to_nat n) None)
   /\ getGame_view s1 gameId = (msg_sender env, n, block_timestamp env, false))
  /\ (getGamePrediction env s2 gameId = Ok (Some p)
      /\ getGameStake env s2 gameId = Ok (Some stake)
      /\ (exists faces, getGameDiceValues env s2 gameId = Ok faces
            /\ length faces = Z.to_nat n /\ Forall is_face faces)
      /\ getGame_view s2 gameId = (msg_sender env, n, block_timestamp env, true))
  /\ (msg_sender viewer <> msg_sender env ->
      getGamePrediction viewer s1 gameId = Revert OnlyGamePlayer
      /\ getGameStake viewer s1 gameId = Revert OnlyGamePlayer
      /\ getGameDiceValues viewer s1 gameId = Revert OnlyGamePlayer
      /\ getGamePrediction viewer s2 gameId = Revert OnlyGamePlayer
      /\ getGameStake viewer s2 gameId = Revert OnlyGamePlayer
      /\ getGameDiceValues viewer s2 gameId = Revert OnlyGamePlayer).
Proof.
  intros Hv Hv' Hsender Hn Hgc. cbv zeta.
  destruct (transact_start_resolve env env' n p stake s Hv Hv' Hsender Hn Hgc)
    as (Hstart & Hgame & s2 & Hres & _ & _ & Hg2 & _).
  rewrite Hstart. cbn [fst]. rewrite Hres. cbn [fst].
  unfold getGamePrediction, getGameStake, getGameDiceValues, getGame_view.
  rewrite Hg2, Hgame.
  cbn [player diceCount prediction stakeAmount diceValues timestamp isResolved
       with_isResolved with_diceValues].
  rewrite Z.eqb_refl. cbn [negb].
  split; [by repeat split|]. split.
  - split; [reflexivity|]. split; [reflexivity|]. split; [|reflexivity].
    eexists. split; [reflexivity|].
    split; [by rewrite diceFill_length, length_replicate|].
    pose proof (diceFill_all keccak256 env' (gameCounter s) (replicate (Z.to_nat n) None)) as H.
    by rewrite length_replicate in H.
  - intros Hne.
    replace (msg_sender env =? msg_sender viewer) with false by lia.
    by repeat split.
Qed.

(** X10: a game's record is written once.  In every reachable state, no
    transaction changes the player, the dice count, the prediction, the
    stake or the creation time of an existing game, and none clears its
    resolved flag. *)
Theorem game_fields_immutable env c gameId s :
  reachable keccak256 accepts_transfer s -> valid_env env ->
  0 <= gameId < gameCounter s ->
  let g := getGame s gameId in
  let g' := getGame (fst (tx env c s)) gameId in
  player g' = player g
  /\ diceCount g' = diceCount g
  /\ prediction g' = prediction g
  /\ stakeAmount g' = stakeAmount g
  /\ timestamp g' = timestamp g
  /\ (isResolved g = true -> isResolved g' = true).
Proof.
  intros Hreach Hv Hid. cbv zeta.
  pose proof (reachable_Inv keccak256 accepts_transfer s Hreach) as HI.
  destruct (transact_games keccak256 accepts_transfer env c s HI Hv)
    as [[Hg _] | [(n & p & st & -> & _ & _ & _ & Hg) | (k & g & -> & _ & Hlook & _ & _ & Hg)]];
    unfold getGame; rewrite Hg.
  - done.
  - rewrite lookup_insert_ne by lia. done.
  - destruct (decide (k = gameId)) as [<-|Hne].
    + rewrite lookup_insert_eq, Hlook. simpl. done.
    + rewrite lookup_insert_ne by done. done.
Qed.

(** ** Publishing a balance *)

(** X11: only the account itself or the owner may make a balance publicly
    decryptable; anyone else gets [Unauthorized].  For an account that has
    a balance the authorised call succeeds, and all it does is record the
    grant for the handle now stored; for an account whose balance was never
    written the access-control list refuses the null handle.  In every
    case no balance, game, event or wei moves. *)
Theorem makeBalancePubliclyDecryptable_outcome env who s :
  msg_value env = 0 ->
  let after := tx env (MakeBalancePubliclyDecryptable who) s in
  (msg_sender env <> who -> msg_sender env <> owner s ->
   after = (s, Reverted Unauthorized))
  /\ (msg_sender env = who \/ msg_sender env = owner s ->
      is_Some (balanceOf s who) ->
      after = (add_grant (MakePubliclyDecryptable (CInt (balanceOf s who))) s, Success))
  /\ (msg_sender env = who \/ msg_sender env = owner s ->
      balanceOf s who = None ->
      after = (s, Reverted SenderNotAllowed))
  /\ playerBalance (fst after) = playerBalance s
  /\ games (fst after) = games s
  /\ balance (fst after) = balance s
  /\ events (fst after) = events s.
Proof.
  intros Hv. cbv zeta. rewrite transact_no_value by done. cbn [body].
  rewrite makeBalancePubliclyDecryptable_steps.
  split; [|split; [|split]].
  - intros Hwho Hown.
    replace (msg_sender env =? who) with false by lia.
    replace (msg_sender env =? owner s) with false by lia. reflexivity.
  - intros Hauth [v Hsome].
    replace ((msg_sender env =? who) || (msg_sender env =? owner s)) with true
      by (symmetry; apply orb_true_iff; lia).
    by rewrite Hsome.
  - intros Hauth Hnone.
    replace ((msg_sender env =? who) || (msg_sender env =? owner s)) with true
      by (symmetry; apply orb_true_iff; lia).
    by rewrite Hnone.
  - destruct ((msg_sender env =? who) || (msg_sender env =? owner s));
      [destruct (balanceOf s who)|]; by repeat split.
Qed.

(** ** Encrypted balances across one transaction *)

Lemma swapROLLForETH_cases env amt enc s :
  swapROLLForETH accepts_transfer env amt enc s =
  if amt >? 0 then
    if amt * ether <=? uint256_max then
      let owed := amt * ether / 1000 in
      let debited := FHE.sub (balanceOf s (msg_sender env)) (Some (ext_clear enc)) in
      if balance s >=? owed then
        if ext_valid enc then
          if accepts_transfer (msg_sender env) then
            Ok (tt,
                add_event (TokensSwapped (msg_sender env) owed amt false)
                  (set_balance (balance s - owed)
                     (add_grant (Allow (CInt debited) (msg_sender env))
                        (add_grant (AllowThis (CInt debited))
                           (set_playerBalance (msg_sender env) debited s)))))
          else Revert TransferFailed
        else Revert InvalidProof
      else Revert InsufficientTreasury
    else Revert (Panic 17)
  else Revert InvalidAmount.
Proof.
  unfold swapROLLForETH. cbv zeta.
  unfold bind at 1, require.
  destruct (amt >? 0); [|reflexivity]. cbn [ret].
  unfold bind at 1, checked_mul.
  replace (1 * ether) with ether by lia.
  destruct (amt * ether <=? uint256_max); [|reflexivity]. cbn [ret].
  unfold ROLL_TOKEN_RATE. set (owed := amt * ether / 1000).
  unfold bind at 1. cbn [get]. unfold bind at 1.
  destruct (balance s >=? owed) eqn:E2; cbn [require ret revert]; [|reflexivity].
  unfold bind at 1, fromExternal.
  destruct (ext_valid enc); cbn [ret revert]; [|reflexivity].
  cbv [bind get modify acl emit transfer].
  rewrite balanceOf_set_same, !balance_add_grant, balance_set_playerBalance.
  replace (owed <=? balance s) with true by lia. cbn [andb].
  destruct (accepts_transfer (msg_sender env)); reflexivity.
Qed.

Lemma resolveGame_playerBalance env gameId s s' :
  resolveGame keccak256 env gameId s = Ok (tt, s') ->
  exists v, playerBalance s' = <[msg_sender env := v mod 2 ^ 32]> (playerBalance s).
Proof.
  rewrite resolveGame_steps. cbv zeta.
  destruct (negb _); [discriminate|].
  destruct (isResolved _); [discriminate|].
  destruct (rollDice _ _ _ _ _ _ s) as [[sum s1]|e] eqn:Hrun; [|discriminate].
  intros [= <-].
  pose proof (rollDice_preserves keccak256 playerBalance env gameId _ _ _
                ltac:(reflexivity) ltac:(reflexivity) _ _ _ Hrun) as Hpb.
  eexists. unfold settle. cbv zeta.
  cbn [playerBalance add_event update_game set_game add_grant set_playerBalance].
  unfold FHE.add at 1, sstore. rewrite Hpb. reflexivity.
Qed.

(** One transaction writes at most one encrypted balance, the caller's, and
    what it writes is a value reduced modulo 2^32. *)
Lemma transact_balances env c s :
  playerBalance (fst (tx env c s)) = playerBalance s
  \/ exists v, playerBalance (fst (tx env c s))
               = <[msg_sender env := v mod 2 ^ 32]> (playerBalance s).
Proof.
  unfold transact.
  destruct (negb (payable c) && negb (msg_value env =? 0)); [by left|].
  set (s0 := set_balance (balance s + msg_value env) s).
  change (playerBalance s) with (playerBalance s0).
  destruct c as [amount| |amt enc| |n p st|gameId|who| | |]; cbn [body].
  - rewrite mintTokens_steps. destruct (amount >? MAX_MINT); [by left|].
    right. eexists. reflexivity.
  - rewrite swapETHForROLL_steps.
    destruct (msg_value env =? 0); [by left|].
    destruct (_ <=? uint256_max); [|by left]. cbv zeta.
    destruct (_ <=? uint32_max); [|by left].
    right. eexists. reflexivity.
  - rewrite swapROLLForETH_cases. cbv zeta.
    destruct (amt >? 0); [|by left].
    destruct (_ <=? uint256_max); [|by left].
    destruct (_ >=? _); [|by left].
    destruct (ext_valid enc); [|by left].
    destruct (accepts_transfer _); [|by left].
    right. eexists. reflexivity.
  - rewrite addTreasuryETH_steps.
    destruct (negb _); [by left|]. destruct (_ >? 0); by left.
  - rewrite startGame_steps.
    destruct (_ || _); [by left|].
    destruct (negb (ext_valid p)); [by left|].
    destruct (negb (ext_valid st)); [by left|].
    destruct (_ <=? uint256_max); [|by left].
    right. eexists. reflexivity.
  - destruct (resolveGame keccak256 env gameId s0) as [[[] s']|e] eqn:E; [|by left].
    right. by apply (resolveGame_playerBalance env gameId).
  - rewrite makeBalancePubliclyDecryptable_steps.
    destruct (_ || _); [destruct (balanceOf s0 who)|]; by left.
  - rewrite withdrawETH_steps.
    destruct (negb _); [by left|]. destruct (accepts_transfer _); by left.
  - by left.
  - by left.
Qed.

(** X12: accounts are independent.  Whatever a caller does, whether it
    succeeds or not, the encrypted balance of every other account is the
    same handle afterwards. *)
Theorem balances_isolated env c s who :
  who <> msg_sender env ->
  balanceOf (fst (tx env c s)) who = balanceOf s who.
Proof.
  intros Hne. unfold balanceOf.
  destruct (transact_balances env c s) as [-> | [v ->]]; [reflexivity|].
  by rewrite lookup_insert_ne.
Qed.

Lemma balances_uint32_replay txs s :
  balances_uint32 s -> balances_uint32 (replay keccak256 accepts_transfer txs s).
Proof.
  revert s. induction txs as [|[env c] txs IH]; intros s Hs; [exact Hs|].
  cbn [replay foldl fst snd]. apply IH. unfold balances_uint32.
  destruct (transact_balances env c s) as [-> | [v ->]]; [exact Hs|].
  intros who w. destruct (decide (msg_sender env = who)) as [<-|Hne].
  - rewrite lookup_insert_eq. intros [= <-]. apply Z.mod_pos_bound. lia.
  - rewrite lookup_insert_ne by done. apply Hs.
Qed.

(** A successful call of one of the five writers stores an initialised
    handle for its caller; every other transaction leaves the balance
    mapping as it was. *)
Lemma transact_balances_written env c s :
  let after := tx env c s in
  if writes_balance c && succeeded (snd after)
  then exists v, playerBalance (fst after)
                 = <[msg_sender env := v mod 2 ^ 32]> (playerBalance s)
  else playerBalance (fst after) = playerBalance s.
Proof.
  cbv zeta. unfold transact.
  destruct (negb (payable c) && negb (msg_value env =? 0));
    [cbn [fst snd succeeded]; by rewrite andb_false_r|].
  set (s0 := set_balance (balance s + msg_value env) s).
  change (playerBalance s) with (playerBalance s0).
  destruct c as [amount| |amt enc| |n p st|gameId|who| | |];
    cbn [body writes_balance andb].
  - rewrite mintTokens_steps.
    destruct (amount >? MAX_MINT); cbn [fst snd succeeded]; [reflexivity|].
    eexists. reflexivity.
  - rewrite swapETHForROLL_steps.
    destruct (msg_value env =? 0); cbn [fst snd succeeded]; [reflexivity|].
    destruct (_ <=? uint256_max); cbn [fst snd succeeded]; [|reflexivity]. cbv zeta.
    destruct (_ <=? uint32_max); cbn [fst snd succeeded]; [|reflexivity].
    eexists. reflexivity.
  - rewrite swapROLLForETH_cases. cbv zeta.
    destruct (amt >? 0); cbn [fst snd succeeded]; [|reflexivity].
    destruct (_ <=? uint256_max); cbn [fst snd succeeded]; [|reflexivity].
    destruct (_ >=? _); cbn [fst snd succeeded]; [|reflexivity].
    destruct (ext_valid enc); cbn [fst snd succeeded]; [|reflexivity].
    destruct (accepts_transfer _); cbn [fst snd succeeded]; [|reflexivity].
    eexists. reflexivity.
  - rewrite addTreasuryETH_steps.
    destruct (negb _); [reflexivity|]. destruct (_ >? 0); reflexivity.
  - rewrite startGame_steps.
    destruct (_ || _); cbn [fst snd succeeded]; [reflexivity|].
    destruct (negb (ext_valid p)); cbn [fst snd succeeded]; [reflexivity|].
    destruct (negb (ext_valid st)); cbn [fst snd succeeded]; [reflexivity|].
    destruct (_ <=? uint256_max); cbn [fst snd succeeded]; [|reflexivity].
    eexists. reflexivity.
  - destruct (resolveGame keccak256 env gameId s0) as [[[] s']|e] eqn:E;
      cbn [fst snd succeeded]; [|reflexivity].
    by apply (resolveGame_playerBalance env gameId).
  - rewrite makeBalancePubliclyDecryptable_steps.
    destruct (_ || _); [destruct (balanceOf s0 who)|]; reflexivity.
  - rewrite withdrawETH_steps.
    destruct (negb _); [reflexivity|]. destruct (accepts_transfer _); reflexivity.
  - reflexivity.
  - reflexivity.
Qed.

Lemma transact_touch env c s who :
  let after := tx env c s in
  if (msg_sender env =? who) && writes_balance c && succeeded (snd after)
  then is_Some (balanceOf (fst after) who)
  else balanceOf (fst after) who = balanceOf s who.
Proof.
  cbv zeta. pose proof (transact_balances_written env c s) as H. cbv zeta in H.
  unfold balanceOf. rewrite <- andb_assoc.
  destruct (writes_balance c && succeeded (snd (tx env c s))).
  - destruct H as [v ->]. destruct (Z.eqb_spec (msg_sender env) who) as [->|Hne]; cbn [andb].
    + rewrite lookup_insert_eq. by eexists.
    + by rewrite lookup_insert_ne.
  - rewrite H, andb_false_r. reflexivity.
Qed.

(** A handle, once stored, is never reset to null; and a null handle stays
    null until its account makes a successful write. *)
Lemma written_replay who txs s :
  (is_Some (balanceOf s who) ->
   is_Some (balanceOf (replay keccak256 accepts_transfer txs s) who))
  /\ (balanceOf s who = None ->
      (balanceOf (replay keccak256 accepts_transfer txs s) who = None
       <-> written keccak256 accepts_transfer who txs s = false)).
Proof.
  revert s. induction txs as [|[env c] txs IH]; intros s.
  - cbn [replay foldl written]. split; [done|]. by intros ->.
  - cbn [replay foldl written fst snd].
    pose proof (transact_touch env c s who) as Ht. cbv zeta in Ht.
    destruct (IH (fst (tx env c s))) as [IH1 IH2].
    destruct ((msg_sender env =? who) && writes_balance c && succeeded (snd (tx env c s))).
    + split; [intros _; by apply IH1|].
      intros _. cbn [orb]. split; [|discriminate].
      intros Hnone. apply IH1 in Ht. unfold replay in Ht. rewrite Hnone in Ht.
      by destruct Ht.
    + cbn [orb]. rewrite <- Ht. split; [exact IH1 | exact IH2].
Qed.

(** X13: a balance is always a 32-bit value, and it is the null handle
    exactly for the accounts that never wrote it.  After any sequence of
    transactions from deployment, every account decrypts to a number in
    [0, 2^32); [getBalance] returns the null handle, which decrypts to 0,
    exactly when the account has sent no successful [mintTokens],
    [swapETHForROLL], [swapROLLForETH], [startGame] or [resolveGame]; and
    no transaction resets a stored balance to null. *)
Theorem balances_stay_uint32 deployer funds txs who :
  let s0 := constructor deployer funds in
  let s := replay keccak256 accepts_transfer txs s0 in
  0 <= decrypt (balanceOf s who) < 2 ^ 32
  /\ (getBalance s who = None <-> written keccak256 accepts_transfer who txs s0 = false)
  /\ (written keccak256 accepts_transfer who txs s0 = false -> decrypt (getBalance s who) = 0)
  /\ (forall env c, is_Some (getBalance s who) -> is_Some (getBalance (fst (tx env c s)) who))
  /\ getBalance s0 who = None.
Proof.
  cbv zeta.
  assert (H : balances_uint32 (replay keccak256 accepts_transfer txs (constructor deployer funds))).
  { apply balances_uint32_replay. intros w v. unfold constructor. cbn [playerBalance].
    by rewrite lookup_empty. }
  assert (H0 : balanceOf (constructor deployer funds) who = None).
  { unfold balanceOf, constructor. cbn [playerBalance]. apply lookup_empty. }
  destruct (written_replay who txs (constructor deployer funds)) as [_ Hiff].
  specialize (Hiff H0). unfold getBalance.
  split; [|split; [exact Hiff|split; [|split; [|exact H0]]]].
  - unfold balanceOf. destruct (playerBalance _ !! who) as [v|] eqn:E.
    + apply (H who v E).
    + cbn. lia.
  - intros Hw. apply Hiff in Hw. by rewrite Hw.
  - intros env c Hsome.
    pose proof (transact_touch env c
                  (replay keccak256 accepts_transfer txs (constructor deployer funds)) who) as Ht.
    cbv zeta in Ht. destruct (_ && _); [exact Ht | by rewrite Ht].
Qed.

(** ** Minting *)

(** X14: minting is open to every caller, costs nothing and moves no wei.
    The [TokensMinted] event reports the amount as requested, while the
    balance is credited with the amount truncated to 32 bits: the two agree
    exactly when the amount is below 2^32. *)
Theorem mintTokens_event_and_credit env amount s :
  msg_value env = 0 -> 0 <= amount <= MAX_MINT ->
  let after := tx env (MintTokens amount) s in
  snd after = Success
  /\ events (fst after) = events s ++ [TokensMinted (msg_sender env) amount]
  /\ balanceOf (fst after) (msg_sender env)
     = FHE.add (balanceOf s (msg_sender env)) (FHE.asEuint32 (amount mod 2 ^ 32))
  /\ (amount mod 2 ^ 32 = amount <-> amount < 2 ^ 32)
  /\ balance (fst after) = balance s
  /\ games (fst after) = games s.
Proof.
  intros Hv Hamt. cbv zeta. rewrite transact_no_value by done. cbn [body].
  rewrite mintTokens_steps.
  replace (amount >? MAX_MINT) with false by lia. cbv zeta. cbn [fst snd].
  split; [reflexivity|]. split; [reflexivity|].
  split; [by autorewrite with storage|].
  split; [|by split].
  split.
  - intros H. rewrite <- H. apply Z.mod_pos_bound. lia.
  - intros H. apply Z.mod_small. lia.
Qed.

(** ** Swapping: rounding and round trips *)

Lemma tokens_per_wei n : n * 1000 / ether = n / 10 ^ 15.
Proof.
  replace ether with (10 ^ 15 * 1000) by reflexivity.
  apply Z.div_mul_cancel_r; lia.
Qed.

Lemma transact_swapETHForROLL env s :
  0 < msg_value env -> msg_value env * 1000 / ether <= uint32_max ->
  tx env SwapETHForROLL s =
  let s0 := set_balance (balance s + msg_value env) s in
  let tokens := msg_value env * 1000 / ether in
  let credited := FHE.add (balanceOf s (msg_sender env)) (FHE.asEuint32 tokens) in
  (add_event (TokensSwapped (msg_sender env) (msg_value env) tokens true)
     (add_grant (Allow (CInt credited) (msg_sender env))
        (add_grant (AllowThis (CInt credited))
           (set_playerBalance (msg_sender env) credited s0))), Success).
Proof.
  intros Hpos Hfit. rewrite transact_payable by done. cbn [body].
  rewrite swapETHForROLL_steps.
  replace (msg_value env =? 0) with false by lia.
  pose proof (tokens_fit_no_overflow (msg_value env) ltac:(lia) Hfit) as Hmul.
  unfold ROLL_TOKEN_RATE in Hmul.
  replace (msg_value env * 1000 <=? uint256_max) with true by lia. cbv zeta.
  replace (msg_value env * 1000 / ether <=? uint32_max) with true by lia.
  assert (Hq : 0 <= msg_value env * 1000 / ether) by (apply Z.div_pos; [lia|reflexivity]).
  unfold to_uint32. rewrite Z.mod_small by (unfold uint32_max in Hfit; lia).
  reflexivity.
Qed.

(** X15: the swap rounds down in the contract's favour.  A payment below
    10^15 wei is accepted and kept but buys no token: the event reports a
    ROLL amount of 0 and the caller's balance decrypts to what it did. *)
Theorem dust_buys_nothing env s :
  0 < msg_value env < 10 ^ 15 ->
  0 <= decrypt (balanceOf s (msg_sender env)) < 2 ^ 32 ->
  let after := tx env SwapETHForROLL s in
  snd after = Success
  /\ balance (fst after) = balance s + msg_value env
  /\ decrypt (balanceOf (fst after) (msg_sender env)) = decrypt (balanceOf s (msg_sender env))
  /\ events (fst after)
     = events s ++ [TokensSwapped (msg_sender env) (msg_value env) 0 true].
Proof.
  intros Hv Hold. cbv zeta.
  assert (Hq : msg_value env * 1000 / ether = 0).
  { rewrite tokens_per_wei. apply Z.div_small. lia. }
  rewrite transact_swapETHForROLL by (rewrite ?Hq; unfold uint32_max; lia).
  cbv zeta. rewrite Hq. cbn [fst snd].
  split; [reflexivity|]. split; [reflexivity|]. split; [|reflexivity].
  autorewrite with storage. rewrite decrypt_add, decrypt_asEuint32, Z.add_0_r.
  by apply Z.mod_small.
Qed.

(** X16: buying and selling back.  A purchase worth at least one token
    goes through exactly when the tokens fit 32 bits.  The sale of those
    tokens by the same caller, right after, goes through exactly when the
    caller accepts the payment: then the caller gets back [n] less the
    remainder of [n] modulo 10^15, which stays in the contract, and the
    encrypted balance returns to what it was.  A caller that rejects plain
    transfers cannot sell: the sale reverts, the tokens stay on its balance
    and the [n] wei stay in the contract. *)
Theorem buy_then_sell env env' s :
  let n := msg_value env in
  let tokens := n * 1000 / ether in
  let sender := msg_sender env in
  0 < tokens ->
  msg_value env' = 0 -> msg_sender env' = sender ->
  0 <= balance s ->
  0 <= decrypt (balanceOf s sender) < 2 ^ 32 ->
  let bought := tx env SwapETHForROLL s in
  let sold := tx env' (SwapROLLForETH tokens (mkExternal tokens true)) (fst bought) in
  (snd bought = Success <-> tokens <= uint32_max)
  /\ (tokens <= uint32_max ->
      (snd sold = Success <-> accepts_transfer sender = true)
      /\ (accepts_transfer sender = true ->
          balance (fst sold) = balance s + n mod 10 ^ 15
          /\ decrypt (balanceOf (fst sold) sender) = decrypt (balanceOf s sender))
      /\ (accepts_transfer sender = false ->
          sold = (fst bought, Reverted TransferFailed)
          /\ balance (fst sold) = balance s + n
          /\ decrypt (balanceOf (fst sold) sender)
             = (decrypt (balanceOf s sender) + tokens) mod 2 ^ 32)).
Proof.
  cbv zeta. intros Htok Hv' Hsender Hbal Hold.
  assert (Hpos : 0 < msg_value env).
  { destruct (Z_lt_le_dec 0 (msg_value env)) as [|Hle]; [done|].
    rewrite tokens_per_wei in Htok.
    assert (msg_value env / 10 ^ 15 <= 0) by (apply Z.div_le_upper_bound; lia). lia. }
  split.
  { split.
    - rewrite transact_payable by done. cbn [body]. rewrite swapETHForROLL_steps.
      destruct (msg_value env =? 0); [discriminate|].
      destruct (_ <=? uint256_max); [|discriminate]. cbv zeta.
      destruct (_ <=? uint32_max) eqn:E; [lia | discriminate].
    - intros Hfit. by rewrite transact_swapETHForROLL by lia. }
  intros Hfit.
  rewrite transact_swapETHForROLL by lia. cbv zeta. cbn [fst snd].
  set (tokens := msg_value env * 1000 / ether) in *.
  rewrite transact_no_value by done. cbn [body].
  rewrite swapROLLForETH_cases, Hsender. cbv zeta.
  replace (tokens >? 0) with true by lia.
  assert (Hmul : tokens * ether <= uint256_max).
  { unfold ether, uint256_max, uint32_max in *. nia. }
  replace (tokens * ether <=? uint256_max) with true by lia.
  assert (Howed : tokens * ether / 1000 = tokens * 10 ^ 15).
  { replace ether with (10 ^ 15 * 1000) by reflexivity.
    rewrite Z.mul_assoc. apply Z.div_mul. lia. }
  rewrite Howed.
  assert (Hn : msg_value env = tokens * 10 ^ 15 + msg_value env mod 10 ^ 15).
  { subst tokens. rewrite tokens_per_wei.
    rewrite (Z.div_mod (msg_value env) (10 ^ 15)) at 1 by lia. lia. }
  pose proof (Z.mod_pos_bound (msg_value env) (10 ^ 15) ltac:(lia)) as Hrem.
  autorewrite with storage. cbn [ext_valid ext_clear].
  replace (balance s + msg_value env >=? tokens * 10 ^ 15) with true by lia.
  destruct (accepts_transfer (msg_sender env)); cbn [fst snd].
  - split; [done|]. split; [|discriminate]. intros _. split.
    + autorewrite with storage. lia.
    + autorewrite with storage.
      rewrite decrypt_sub, decrypt_add, decrypt_asEuint32, decrypt_Some.
      rewrite Zminus_mod_idemp_l.
      replace (decrypt (balanceOf s (msg_sender env)) + tokens - tokens)
        with (decrypt (balanceOf s (msg_sender env))) by lia.
      by apply Z.mod_small.
  - split; [split; discriminate|]. split; [discriminate|]. intros _.
    split; [reflexivity|]. split.
    + by autorewrite with storage.
    + autorewrite with storage. by rewrite decrypt_add, decrypt_asEuint32.
Qed.

(** ** The contract never owes *)

Lemma transact_balance_nonneg env c s :
  0 <= msg_value env -> 0 <= balance s -> 0 <= balance (fst (tx env c s)).
Proof.
  intros Hv Hb. unfold transact.
  destruct (negb (payable c) && negb (msg_value env =? 0)); [done|].
  set (s0 := set_balance (balance s + msg_value env) s).
  assert (Hb0 : 0 <= balance s0) by (subst s0; cbn; lia).
  destruct (body _ _ _ _ _) as [[[] s']|e] eqn:E; [|done]. cbn [fst].
  destruct c as [amount| |amt enc| |n p st|gameId|who| | |]; cbn [body] in E.
  - by rewrite (mintTokens_balance _ _ _ _ _ E).
  - rewrite swapETHForROLL_steps in E.
    destruct (msg_value env =? 0); [discriminate|].
    destruct (_ <=? uint256_max); [|discriminate]. cbv zeta in E.
    destruct (_ <=? uint32_max); [|discriminate].
    injection E as <-. by autorewrite with storage.
  - rewrite swapROLLForETH_cases in E. cbv zeta in E.
    destruct (amt >? 0); [|discriminate].
    destruct (_ <=? uint256_max); [|discriminate].
    destruct (balance s0 >=? _) eqn:Hge; [|discriminate].
    destruct (ext_valid enc); [|discriminate].
    destruct (accepts_transfer _); [|discriminate].
    injection E as <-. subst s0. autorewrite with storage in *. lia.
  - rewrite addTreasuryETH_steps in E.
    destruct (negb _); [discriminate|]. destruct (_ >? 0); [|discriminate].
    injection E as <-. by autorewrite with storage.
  - by rewrite (startGame_balance _ _ _ _ _ _ _ E).
  - by rewrite (resolveGame_balance keccak256 _ _ _ _ _ E).
  - by rewrite (makeBalancePubliclyDecryptable_balance _ _ _ _ _ E).
  - rewrite withdrawETH_steps in E.
    destruct (negb _); [discriminate|]. destruct (accepts_transfer _); [|discriminate].
    by injection E as <-.
  - by injection E as <-.
  - by injection E as <-.
Qed.

(** X17: the contract never pays out more than it holds.  Deployed at an
    address with a non-negative balance, it has a non-negative balance
    after any sequence of transactions. *)
Theorem treasury_never_negative deployer funds txs :
  0 <= funds ->
  Forall (fun t => 0 <= msg_value (fst t)) txs ->
  0 <= balance (replay keccak256 accepts_transfer txs (constructor deployer funds)).
Proof.
  intros Hf Hall.
  assert (H : forall s, 0 <= balance s ->
                        0 <= balance (replay keccak256 accepts_transfer txs s)).
  { induction Hall as [|[env c] txs Hv _ IH]; intros s Hs; [exact Hs|].
    cbn [replay foldl fst snd]. apply IH. by apply transact_balance_nonneg. }
  by apply H.
Qed.

(** ** The event log *)

(** X18: the log is append-only and exact.  A transaction that fails logs
    nothing; one that succeeds appends exactly the event of its entry
    point, with the caller and the amounts its body computed, and the four
    entry points without an [emit] append nothing. *)
Theorem event_log env c s :
  let after := tx env c s in
  events (fst after)
  = events s ++ match snd after with
                | Success => emitted env c s
                | Reverted _ => []
                end.
Proof.
  cbv zeta. unfold transact.
  destruct (negb (payable c) && negb (msg_value env =? 0)); cbn [fst snd];
    [by rewrite app_nil_r|].
  set (s0 := set_balance (balance s + msg_value env) s).
  change (events s) with (events s0).
  change (emitted env c s) with (emitted env c s0).
  destruct c as [amount| |amt enc| |n p st|gameId|who| | |]; cbn [body emitted].
  - rewrite mintTokens_steps.
    destruct (amount >? MAX_MINT); cbn [fst snd]; [by rewrite app_nil_r | reflexivity].
  - rewrite swapETHForROLL_steps.
    destruct (msg_value env =? 0); cbn [fst snd]; [by rewrite app_nil_r|].
    destruct (_ <=? uint256_max); cbn [fst snd]; [|by rewrite app_nil_r]. cbv zeta.
    destruct (_ <=? uint32_max); cbn [fst snd]; [reflexivity | by rewrite app_nil_r].
  - rewrite swapROLLForETH_cases. cbv zeta.
    destruct (amt >? 0); cbn [fst snd]; [|by rewrite app_nil_r].
    destruct (_ <=? uint256_max); cbn [fst snd]; [|by rewrite app_nil_r].
    destruct (_ >=? _); cbn [fst snd]; [|by rewrite app_nil_r].
    destruct (ext_valid enc); cbn [fst snd]; [|by rewrite app_nil_r].
    destruct (accepts_transfer _); cbn [fst snd]; [reflexivity | by rewrite app_nil_r].
  - rewrite addTreasuryETH_steps.
    destruct (negb _); cbn [fst snd]; [by rewrite app_nil_r|].
    destruct (_ >? 0); cbn [fst snd]; [reflexivity | by rewrite app_nil_r].
  - rewrite startGame_steps.
    destruct (_ || _); cbn [fst snd]; [by rewrite app_nil_r|].
    destruct (negb (ext_valid p)); cbn [fst snd]; [by rewrite app_nil_r|].
    destruct (negb (ext_valid st)); cbn [fst snd]; [by rewrite app_nil_r|].
    destruct (_ <=? uint256_max); cbn [fst snd]; [reflexivity | by rewrite app_nil_r].
  - rewrite resolveGame_steps. cbv zeta.
    destruct (negb _); cbn [fst snd]; [by rewrite app_nil_r|].
    destruct (isResolved _); cbn [fst snd]; [by rewrite app_nil_r|].
    destruct (rollDice _ _ _ _ _ _ s0) as [[sum s1]|e] eqn:Hrun; cbn [fst snd];
      [|by rewrite app_nil_r].
    rewrite <- (rollDice_preserves keccak256 events env gameId _ _ _
                  ltac:(reflexivity) ltac:(reflexivity) _ _ _ Hrun).
    reflexivity.
  - rewrite makeBalancePubliclyDecryptable_steps.
    destruct (_ || _); [destruct (balanceOf s0 who)|]; cbn [fst snd]; by rewrite app_nil_r.
  - rewrite withdrawETH_steps.
    destruct (negb _); cbn [fst snd]; [by rewrite app_nil_r|].
    destruct (accepts_transfer _); cbn [fst snd]; by rewrite app_nil_r.
  - cbn [fst snd receive ret]. by rewrite app_nil_r.
  - cbn [fst snd fallback ret]. by rewrite app_nil_r.
Qed.

(** ** The permissions asked while resolving *)

Lemma rollDice_grants env gameId n i sum s sum' s' :
  0 <= i ->
  (Z.to_nat i + n <= length (diceValues (getGame s gameId)))%nat ->
  rollDice keccak256 env gameId n i sum s = Ok (sum', s') ->
  grants s' = grants s ++ diceGrants keccak256 env gameId n i.
Proof.
  revert i sum s. induction n as [|n IH]; intros i sum s Hi Hlen; cbn [rollDice diceGrants].
  - intros [= _ <-]. by rewrite app_nil_r.
  - cbv zeta. unfold bind at 1, write_dice. unfold bind at 1. cbn [get].
    destruct ((0 <=? i) && (i <? Z.of_nat (length (diceValues (getGame s gameId))))) eqn:E.
    2:{ apply andb_false_iff in E as [E|E]; lia. }
    cbn [modify]. unfold bind at 1. cbn [get]. unfold bind at 1, acl. cbn [modify].
    unfold bind at 1. cbn [modify].
    set (r := randomValue keccak256 env gameId i).
    set (s1 := update_game gameId _ s).
    assert (Hg1 : diceValues (getGame s1 gameId)
                  = <[Z.to_nat i := FHE.asEuint32 r]> (diceValues (getGame s gameId))).
    { subst s1. by rewrite getGame_update_same. }
    rewrite Hg1, list_lookup_insert_eq by lia. cbn [default].
    intros Hrun. apply IH in Hrun.
    + rewrite Hrun. cbn [grants add_grant]. subst s1.
      rewrite <- !app_assoc. reflexivity.
    + lia.
    + rewrite getGame_add_grant, getGame_add_grant, Hg1, length_insert. lia.
Qed.

(** ** The dice behind an outcome *)

Lemma faces_of_fresh_slots env gameId (n : nat) :
  (1 <= n <= 3)%nat ->
  let faces := diceFill keccak256 env gameId n 0 (replicate n None) in
  sum_faces faces = decrypt (diceSum keccak256 env gameId n 0 (FHE.asEuint32 0))
  /\ Z.of_nat n <= sum_faces faces <= 6 * Z.of_nat n.
Proof.
  intros Hn. cbv zeta.
  pose proof (randomValue_range keccak256 env gameId 0) as H0.
  pose proof (randomValue_range keccak256 env gameId (0 + 1)) as H1.
  pose proof (randomValue_range keccak256 env gameId (0 + 1 + 1)) as H2.
  destruct n as [|[|[|[|n]]]]; try lia;
    cbn [diceFill diceSum replicate];
    change (Z.to_nat 0) with 0%nat;
    change (Z.to_nat (0 + 1)) with 1%nat;
    change (Z.to_nat (0 + 1 + 1)) with 2%nat;
    cbn [insert list_insert sum_faces foldr];
    rewrite !decrypt_add, !decrypt_asEuint32;
    set (r0 := randomValue keccak256 env gameId 0) in *;
    set (r1 := randomValue keccak256 env gameId (0 + 1)) in *;
    set (r2 := randomValue keccak256 env gameId (0 + 1 + 1)) in *;
    rewrite !Z.add_0_l.
  - rewrite Z.mod_small by lia. lia.
  - rewrite (Z.mod_small r0) by lia. rewrite Z.mod_small by lia. lia.
  - rewrite (Z.mod_small r0) by lia. rewrite (Z.mod_small (r0 + r1)) by lia.
    rewrite Z.mod_small by lia. lia.
Qed.

Lemma diceGrants_faces env gameId (n : nat) :
  (n <= 3)%nat ->
  diceGrants keccak256 env gameId n 0
  = flat_map (fun h => [AllowThis (CInt h); Allow (CInt h) (msg_sender env)])
             (diceFill keccak256 env gameId n 0 (replicate n None)).
Proof.
  intros Hn. destruct n as [|[|[|[|n]]]]; try lia; reflexivity.
Qed.

Lemma settle_grants env gameId won pay s1 :
  grants (settle env gameId won pay s1)
  = grants s1
    ++ [AllowThis (CInt (FHE.add (balanceOf s1 (msg_sender env)) pay));
        Allow (CInt (FHE.add (balanceOf s1 (msg_sender env)) pay)) (msg_sender env);
        AllowThis (CBool won); Allow (CBool won) (msg_sender env)].
Proof.
  unfold settle. cbv zeta.
  cbn [grants add_event update_game set_game add_grant set_playerBalance].
  rewrite <- !app_assoc. reflexivity.
Qed.

(** Resolving an open game of a reachable state, by its player: the call
    goes through, and the dice it stores determine the outcome, the credit
    and the permissions asked. *)
Lemma resolveGame_open env gameId s :
  reachable keccak256 accepts_transfer s -> msg_sender env <> 0 ->
  player (getGame s gameId) = msg_sender env ->
  isResolved (getGame s gameId) = false ->
  let g := getGame s gameId in
  exists s', resolveGame keccak256 env gameId s = Ok (tt, s')
    /\ let faces := diceValues (getGame s' gameId) in
       let won := Bool.eqb (Z.even (sum_faces faces)) (decrypt (prediction g) =? 0) in
       length faces = Z.to_nat (diceCount g)
       /\ Forall is_face faces
       /\ diceCount g <= sum_faces faces <= 6 * diceCount g
       /\ gameWon keccak256 env gameId g = won
       /\ balanceOf s' (msg_sender env)
          = FHE.add (balanceOf s (msg_sender env))
              (FHE.select won (FHE.add (stakeAmount g) (stakeAmount g)) (FHE.asEuint32 0))
       /\ grants s'
          = grants s ++ resolve_grants (msg_sender env) faces (balanceOf s' (msg_sender env)) won.
Proof.
  intros Hreach Hsender Hp Hr. cbv zeta.
  destruct (reachable_Inv keccak256 accepts_transfer s Hreach) as (_ & _ & Hslots & _).
  destruct (games s !! gameId) as [g|] eqn:Hlook.
  2:{ unfold getGame in Hp. rewrite Hlook in Hp. cbn in Hp. congruence. }
  assert (Hg : getGame s gameId = g) by (unfold getGame; by rewrite Hlook).
  rewrite Hg in *.
  destruct (Hslots _ _ Hlook) as (Hlen & Hn & _ & Hnull & _).
  assert (Harr : diceValues g = replicate (Z.to_nat (diceCount g)) None).
  { symmetry. apply replicate_as_Forall. split; [exact Hlen|].
    eapply Forall_impl; [exact (Hnull Hr)|]. by intros h ->. }
  destruct (rollDice_ok keccak256 env gameId (Z.to_nat (diceCount g)) 0 (FHE.asEuint32 0) s)
    as (s1 & Hrun & Hg1); [lia | rewrite Hg; lia |].
  assert (Hgr : grants s1
                = grants s ++ diceGrants keccak256 env gameId (Z.to_nat (diceCount g)) 0).
  { apply (rollDice_grants env gameId _ 0 _ _ _ _ ltac:(lia)) in Hrun; [exact Hrun|].
    rewrite Hg. lia. }
  pose proof (rollDice_preserves keccak256 (fun s => balanceOf s (msg_sender env)) env gameId _ _ _
                ltac:(reflexivity) ltac:(reflexivity) _ _ _ Hrun) as Hbal.
  cbv beta in Hbal.
  destruct (faces_of_fresh_slots env gameId (Z.to_nat (diceCount g)) ltac:(lia))
    as [Hsum Hrange].
  assert (Hwon : gameWon keccak256 env gameId g
                 = Bool.eqb (Z.even (sum_faces
                       (diceFill keccak256 env gameId (Z.to_nat (diceCount g)) 0
                          (replicate (Z.to_nat (diceCount g)) None))))
                     (decrypt (prediction g) =? 0)).
  { rewrite gameWon_parity. unfold gameSum. by rewrite Hsum. }
  rewrite resolveGame_steps. cbv zeta. rewrite Hg, Hp, Z.eqb_refl, Hr. cbn [negb].
  rewrite Hrun.
  change (FHE.eq_bool _ _) with (gameWon keccak256 env gameId g).
  eexists. split; [reflexivity|].
  rewrite settle_game, Hg1, Hg, settle_balanceOf, settle_grants, Hbal, Hgr.
  cbn [diceValues with_isResolved with_diceValues].
  rewrite Harr, <- Hwon.
  split; [by rewrite diceFill_length, length_replicate|].
  split.
  { pose proof (diceFill_all keccak256 env gameId
                  (replicate (Z.to_nat (diceCount g)) None)) as H.
    by rewrite length_replicate in H. }
  split; [rewrite Z2Nat.id in Hrange by lia; exact Hrange|].
  split; [reflexivity|]. split; [reflexivity|].
  unfold resolve_grants. rewrite diceGrants_faces, <- app_assoc by lia. reflexivity.
Qed.

(** X19: the outcome can be checked against the stored dice.  When its
    player resolves an open game in a reachable state, the call succeeds
    and leaves one face per die; the faces add up to a number between the
    dice count and six times the dice count.  The permissions the call
    asks for are exactly, in order: each stored face for the contract and
    for the player, the new balance for the contract and for the player,
    and the encrypted result for the contract and, last, for the player.
    That result, and the payout credited, are those of "the sum of the
    stored faces is even" compared with "the prediction is 0". *)
Theorem outcome_matches_stored_dice env gameId s :
  reachable keccak256 accepts_transfer s -> valid_env env -> msg_value env = 0 ->
  player (getGame s gameId) = msg_sender env ->
  isResolved (getGame s gameId) = false ->
  let g := getGame s gameId in
  let after := tx env (ResolveGame gameId) s in
  let faces := diceValues (getGame (fst after) gameId) in
  let won := Bool.eqb (Z.even (sum_faces faces)) (decrypt (prediction g) =? 0) in
  snd after = Success
  /\ length faces = Z.to_nat (diceCount g)
  /\ Forall is_face faces
  /\ diceCount g <= sum_faces faces <= 6 * diceCount g
  /\ grants (fst after)
     = grants s
       ++ flat_map (fun h => [AllowThis (CInt h); Allow (CInt h) (msg_sender env)]) faces
       ++ [AllowThis (CInt (balanceOf (fst after) (msg_sender env)));
           Allow (CInt (balanceOf (fst after) (msg_sender env))) (msg_sender env);
           AllowThis (CBool won);
           Allow (CBool won) (msg_sender env)]
  /\ last (grants (fst after)) = Some (Allow (CBool won) (msg_sender env))
  /\ In (AllowThis (CBool won)) (grants (fst after))
  /\ decrypt (balanceOf (fst after) (msg_sender env))
     = (decrypt (balanceOf s (msg_sender env))
        + (if won then 2 * decrypt (stakeAmount g) else 0)) mod 2 ^ 32.
Proof.
  intros Hreach [Hsender _] Hv Hp Hr. cbv zeta.
  destruct (resolveGame_open env gameId s Hreach Hsender Hp Hr)
    as (s' & Hrun & Hlen & Hfaces & Hrange & _ & Hb & Hgr).
  rewrite transact_no_value by done. cbn [body]. rewrite Hrun. cbn [fst snd].
  split; [reflexivity|]. split; [exact Hlen|]. split; [exact Hfaces|].
  split; [exact Hrange|].
  split; [exact Hgr|].
  split; [rewrite Hgr; unfold resolve_grants; by rewrite !last_app|].
  split.
  { rewrite Hgr. unfold resolve_grants. rewrite !in_app_iff. right. right.
    cbn [In]. auto. }
  rewrite Hb, decrypt_add. unfold FHE.select.
  match goal with |- context [if ?b then _ else _] => destruct b end;
    rewrite decrypt_Some; [|reflexivity].
  rewrite decrypt_add, Z.add_mod_idemp_r by lia. f_equal. lia.
Qed.

(** ** What a resolved game pays *)


(** ** The per-player lists *)

Lemma body_playerGames env c :
  (forall n p st, c <> StartGame n p st) -> preserves playerGames (run env c).
Proof.
  intros Hc. destruct c as [| | | |n p st| | | | |]; cbn [body];
    try (exfalso; by eapply Hc);
    unfold mintTokens, swapETHForROLL, swapROLLForETH, addTreasuryETH,
      resolveGame, makeBalancePubliclyDecryptable, withdrawETH, receive, fallback,
      onlyOwner, transfer;
    preserves_tac.
  apply rollDice_preserves; reflexivity.
Qed.

Lemma games_listed_ext s s' :
  playerGames s' = playerGames s ->
  gameCounter s' = gameCounter s ->
  (forall gameId, player (getGame s' gameId) = player (getGame s gameId)) ->
  games_listed s -> games_listed s'.
Proof.
  intros Hpg Hgc Hpl HL who. unfold gamesOf. rewrite Hpg, Hgc.
  destruct (HL who) as [Hmem Hsort]. split; [|exact Hsort].
  intros gameId. rewrite Hpl. apply Hmem.
Qed.

Lemma games_listed_started env n p stake s :
  0 <= gameCounter s ->
  games_listed s -> games_listed (started env n p stake s).
Proof.
  intros Hgc HL who.
  assert (Hgame : forall gameId,
            player (getGame (started env n p stake s) gameId)
            = if decide (gameId = gameCounter s) then msg_sender env
              else player (getGame s gameId)).
  { intros gameId. case_decide as Hd.
    - subst gameId. by rewrite started_game.
    - unfold getGame, started. cbn [games]. by rewrite lookup_insert_ne. }
  assert (Hlist : gamesOf (started env n p stake s) who
                  = if decide (who = msg_sender env)
                    then gamesOf s who ++ [gameCounter s] else gamesOf s who).
  { unfold gamesOf at 1, started. cbn [playerGames]. case_decide as Hd.
    - subst who. by rewrite lookup_insert_eq.
    - by rewrite lookup_insert_ne. }
  change (gameCounter (started env n p stake s)) with (gameCounter s + 1).
  destruct (HL who) as [Hmem Hsort]. rewrite Hlist.
  split.
  - intros gameId. rewrite Hgame.
    destruct (decide (who = msg_sender env)) as [->|Hne];
      destruct (decide (gameId = gameCounter s)) as [->|Hid];
      rewrite ?elem_of_app, ?list_elem_of_singleton, ?Hmem.
    + split; [intros _; split; [lia | done] | by right].
    + split; [intros [[? ?]|?]; [split; [lia | done] | done]
             | intros [? ?]; left; split; [lia | done]].
    + split; [intros [? ?]; lia | intros [_ ?]; congruence].
    + split; intros [? ?]; (split; [lia | done]).
  - destruct (decide (who = msg_sender env)) as [->|Hne]; [|exact Hsort].
    intros i j a b Hij Hi Hj.
    apply lookup_snoc_Some in Hi as [[Hi1 Hi2] | [Hi1 Hi2]];
      apply lookup_snoc_Some in Hj as [[Hj1 Hj2] | [Hj1 Hj2]]; try lia.
    + by apply (Hsort i j).
    + subst b. apply list_elem_of_lookup_2, Hmem in Hi2. lia.
Qed.

Lemma games_listed_transact env c s :
  Inv s -> valid_env env -> games_listed s -> games_listed (fst (tx env c s)).
Proof.
  intros HI Hv HL.
  assert (Hcase : (exists n p st, c = StartGame n p st)
                  \/ ~ (exists n p st, c = StartGame n p st)).
  { destruct c; try (right; by intros (? & ? & ? & ?)). left. eauto. }
  destruct Hcase as [(n & p & st & ->)|Hc].
  - unfold transact. cbn [payable negb andb body].
    destruct (msg_value env =? 0) eqn:Ev; cbn [negb]; [|exact HL].
    apply Z.eqb_eq in Ev. rewrite Ev, set_balance_same, startGame_steps.
    destruct (_ || _); [exact HL|].
    destruct (negb (ext_valid p)); [exact HL|].
    destruct (negb (ext_valid st)); [exact HL|].
    destruct (_ <=? uint256_max); [|exact HL].
    cbn [fst]. apply games_listed_started; [apply HI | exact HL].
  - assert (Hpg : playerGames (fst (tx env c s)) = playerGames s).
    { unfold transact.
      destruct (negb (payable c) && negb (msg_value env =? 0)); [done|].
      destruct (body _ _ _ _ _) as [[[] s']|e] eqn:E; [|done]. cbn [fst].
      apply (body_playerGames env c ltac:(intros n p st ->; apply Hc; eauto) _ _ _ E). }
    destruct (transact_games keccak256 accepts_transfer env c s HI Hv)
      as [[Hg Hgc] | [(n & p & st & -> & _) | (k & g & -> & _ & Hlook & _ & Hgc & Hg)]].
    + apply (games_listed_ext s); try done.
      intros gameId. unfold getGame. by rewrite Hg.
    + exfalso. apply Hc. eauto.
    + apply (games_listed_ext s); try done.
      intros gameId. unfold getGame. rewrite Hg.
      destruct (decide (k = gameId)) as [<-|Hne].
      * by rewrite lookup_insert_eq, Hlook.
      * by rewrite lookup_insert_ne.
Qed.

(** X20: the per-player lists index the game table faithfully.  In every
    reachable state [getPlayerGames] returns for an account exactly the ids
    of the games whose player it is, in increasing order and without
    repetition, and [getPlayerGameCount] is the length of that list. *)
Theorem player_games_index_the_table s who :
  reachable keccak256 accepts_transfer s ->
  (forall gameId,
     gameId ∈ getPlayerGames s who
     <-> 0 <= gameId < gameCounter s /\ player (getGame s gameId) = who)
  /\ (forall i j a b, (i < j)%nat ->
        getPlayerGames s who !! i = Some a -> getPlayerGames s who !! j = Some b -> a < b)
  /\ NoDup (getPlayerGames s who)
  /\ getPlayerGameCount s who = Z.of_nat (length (getPlayerGames s who)).
Proof.
  intros Hreach.
  assert (HL : games_listed s).
  { induction Hreach as [deployer funds | s env c Hreach IH Hv].
    - intros w. unfold gamesOf, getGame, constructor. cbn [playerGames games gameCounter].
      rewrite lookup_empty. cbn. split.
      + intros gameId. split; [by intros ?%elem_of_nil | lia].
      + intros i j a b _ Hi. by rewrite lookup_nil in Hi.
    - apply games_listed_transact; [by apply (reachable_Inv keccak256 accepts_transfer) | done | done]. }
  destruct (HL who) as [Hmem Hsort]. unfold getPlayerGames, getPlayerGameCount.
  split; [exact Hmem|]. split; [exact Hsort|]. split; [|reflexivity].
  apply NoDup_alt. intros i j a Hi Hj.
  destruct (Nat.lt_total i j) as [Hlt | [Heq | Hgt]]; [|exact Heq|].
  - pose proof (Hsort i j a a Hlt Hi Hj). lia.
  - pose proof (Hsort j i a a Hgt Hj Hi). lia.
Qed.

(** ** Game ids *)

(** X21: game ids are handed out in sequence and never reused.  In every
    reachable state the games that exist are exactly those with ids from 0
    up to the counter, each with a real player and one to three dice; and a
    transaction leaves the counter alone unless it is a successful
    [startGame], which raises it by exactly one. *)
Theorem game_ids_are_sequential env c s :
  reachable keccak256 accepts_transfer s -> valid_env env ->
  (forall gameId, is_Some (games s !! gameId) <-> 0 <= gameId < gameCounter s)
  /\ (forall gameId, 0 <= gameId < gameCounter s ->
        player (getGame s gameId) <> 0 /\ 1 <= diceCount (getGame s gameId) <= 3)
  /\ (gameCounter (fst (tx env c s)) = gameCounter s
      \/ gameCounter (fst (tx env c s)) = gameCounter s + 1
         /\ snd (tx env c s) = Success
         /\ exists n p st, c = StartGame n p st).
Proof.
  intros Hreach Hv.
  pose proof (reachable_Inv keccak256 accepts_transfer s Hreach) as HI.
  pose proof (transact_games keccak256 accepts_transfer env c s HI Hv) as Hstep.
  destruct HI as (Hpos & Hfree & Hslots & Hdense).
  split; [|split].
  - intros gameId. split; [|apply Hdense].
    intros [g Hg].
    destruct (Z_lt_dec gameId 0); [rewrite Hfree in Hg by lia; discriminate|].
    destruct (Z_le_dec (gameCounter s) gameId); [rewrite Hfree in Hg by lia; discriminate|].
    lia.
  - intros gameId Hid. destruct (Hdense _ Hid) as [g Hg].
    unfold getGame. rewrite Hg. simpl.
    destruct (Hslots _ _ Hg) as (_ & ? & ? & _). done.
  - destruct Hstep as [[_ Hgc] | [(n & p & st & -> & Hok & _ & Hgc & _) | (k & g & -> & _ & _ & _ & Hgc & _)]].
    + by left.
    + right. split; [exact Hgc|]. split; [exact Hok|]. eauto.
    + by left.
Qed.

End Beyond.

(** * The statements on concrete runs *)

Section Runs.
Import Scenario.

Local Abbreviation tx := (transact hash eoa).

Lemma call_valid : valid_env call.
Proof. unfold valid_env, call, call_with, alice; cbn; lia. Qed.

Lemma staked_reachable : reachable hash eoa staked.
Proof.
  unfold staked, step. apply reachable_step; [|apply call_valid].
  unfold minted, step. apply reachable_step; [|apply call_valid].
  apply reachable_deploy.
Qed.

(** The scenario of the design notes: after minting 1000 and staking 100
    the balance is 900; the two dice come up 4 and 5, the sum is odd, the
    prediction was odd, and the resolved balance is 1100. *)
Example staked_balance : decrypt (balanceOf staked alice) = 900.
Proof. reflexivity. Qed.

Example resolved_dice : diceValues (getGame resolved 0) = [Some 4; Some 5].
Proof. reflexivity. Qed.

Example resolved_balance : decrypt (balanceOf resolved alice) = 1100.
Proof. reflexivity. Qed.

(** *** Instances of the theorems *)

(** C4 at amount 10001, one above the intended cap: the mint goes through. *)
Lemma mintTokens_cap_witness :
  msg_value call = 0
  /\ exists s', tx call (MintTokens 10001) fresh = (s', Success)
       /\ balanceOf s' (msg_sender call)
          = FHE.add (balanceOf fresh (msg_sender call)) (FHE.asEuint32 (10001 mod 2 ^ 32)).
Proof.
  split; [reflexivity|].
  apply (mintTokens_cap hash eoa call 10001 fresh); [reflexivity | lia].
Defined.

(** C7 at a = 500, b = 300. *)
Lemma mint_twice_is_mint_sum_witness :
  msg_value call = 0 /\ 0 <= 500 /\ 0 <= 300 /\ 500 + 300 <= MAX_MINT
  /\ decrypt (balanceOf (step call (MintTokens 300) (step call (MintTokens 500) fresh)) alice)
     = decrypt (balanceOf (step call (MintTokens (500 + 300)) fresh) alice).
Proof.
  assert (Hcap : 500 + 300 <= MAX_MINT) by (unfold MAX_MINT, ether; lia).
  split; [reflexivity|]. split; [lia|]. split; [lia|]. split; [exact Hcap|].
  apply (mint_twice_is_mint_sum hash eoa call 500 300 fresh alice);
    [reflexivity | lia | lia | exact Hcap].
Defined.

(** C9 at a dice count of 4. *)
Lemma startGame_invalid_dice_count_witness :
  ~ (4 = 1 \/ 4 = 2 \/ 4 = 3)
  /\ step call (StartGame 4 (mkExternal 0 true) (mkExternal 100 true)) minted = minted.
Proof.
  assert (Hn : ~ (4 = 1 \/ 4 = 2 \/ 4 = 3)) by lia.
  split; [exact Hn|].
  apply (startGame_invalid_dice_count hash eoa call 4
           (mkExternal 0 true) (mkExternal 100 true) minted Hn).
Defined.

(** C6 at a payment of 0.1 ether. *)
Lemma swapETHForROLL_credit_witness :
  0 <= msg_value (call_with (10 ^ 17))
  /\ exists s', tx (call_with (10 ^ 17)) SwapETHForROLL fresh = (s', Success)
       /\ balance s' = balance fresh + 10 ^ 17
       /\ decrypt (balanceOf s' alice) = (0 + 10 ^ 17 * 1000 / ether) mod 2 ^ 32.
Proof.
  assert (Hv : 0 <= msg_value (call_with (10 ^ 17))) by (cbn; lia).
  split; [exact Hv|].
  destruct (swapETHForROLL_credit hash eoa (call_with (10 ^ 17)) fresh Hv) as (_ & _ & H).
  destruct H as (s' & Hrun & Hbal & Hcredit & _).
  - cbn; lia.
  - vm_compute. discriminate.
  - exists s'. split; [exact Hrun|]. split; [exact Hbal|]. exact Hcredit.
Defined.

(** C2 at a sale of 100 ROLL against a stocked treasury. *)
Lemma swapROLLForETH_payout_witness :
  msg_value call = 0 /\ 0 < 100 <= uint32_max
  /\ balance (step call (SwapROLLForETH 100 (mkExternal 100 true)) stocked)
     = balance stocked - 100 * ether / 1000.
Proof.
  assert (Hamt : 0 < 100 <= uint32_max) by (unfold uint32_max; lia).
  split; [reflexivity|]. split; [exact Hamt|].
  destruct (swapROLLForETH_payout hash eoa call 100 (mkExternal 100 true) stocked
              ltac:(reflexivity) Hamt) as (_ & _ & _ & H).
  destruct H as (_ & Hbal & _).
  - vm_compute. discriminate.
  - reflexivity.
  - reflexivity.
  - exact Hbal.
Defined.

(** C5 at a plain payment of 5 wei. *)
Lemma treasury_writers_witness :
  tx (call_with 5) Receive fresh = (set_balance (balance fresh + 5) fresh, Success).
Proof.
  apply (proj2 (treasury_writers hash eoa (call_with 5) Receive fresh)). by left.
Defined.

(** C3 on the staked game. *)
Lemma resolveGame_twice_witness :
  tx call (ResolveGame 0) staked = (resolved, Success)
  /\ msg_sender call = player (getGame resolved 0)
  /\ msg_value call = 0
  /\ tx call (ResolveGame 0) resolved = (resolved, Reverted GameAlreadyResolved).
Proof.
  assert (H1 : tx call (ResolveGame 0) staked = (resolved, Success)) by (vm_compute; reflexivity).
  assert (H2 : msg_sender call = player (getGame resolved 0)) by (vm_compute; reflexivity).
  split; [exact H1|]. split; [exact H2|]. split; [reflexivity|].
  apply (resolveGame_twice hash eoa call call 0 staked resolved H1 H2). reflexivity.
Defined.


(** C10 with a prediction of 255. *)
Lemma prediction_not_a_bit_witness :
  msg_value call = 0
  /\ msg_sender call = msg_sender call
  /\ (2 = 1 \/ 2 = 2 \/ 2 = 3)
  /\ gameCounter minted < uint256_max
  /\ prediction (getGame (step call (StartGame 2 (mkExternal 255 true) (mkExternal 100 true)) minted) 0)
     = Some 255
  /\ forall who,
       balanceOf (step call (ResolveGame 0)
                    (step call (StartGame 2 (mkExternal 255 true) (mkExternal 100 true)) minted)) who
       = balanceOf (step call (ResolveGame 0)
                      (step call (StartGame 2 (mkExternal 1 true) (mkExternal 100 true)) minted)) who.
Proof.
  assert (Hn : 2 = 1 \/ 2 = 2 \/ 2 = 3) by lia.
  assert (Hgc : gameCounter minted < uint256_max) by (vm_compute; reflexivity).
  split; [reflexivity|]. split; [reflexivity|]. split; [exact Hn|]. split; [exact Hgc|].
  destruct (prediction_not_a_bit hash eoa call call 2 255 100 minted
              ltac:(reflexivity) ltac:(reflexivity) ltac:(reflexivity) Hn Hgc)
    as (_ & Hpred & _ & _ & _ & _ & Hsame).
  split; [exact Hpred|].
  destruct Hsame as (Hbal & _); [lia | exact Hbal].
Defined.


(** *** Where the statements as first written fail *)


(** C2: alice claims a sale of 1 ROLL but submits a ciphertext of 0; she is
    paid for 1 and her balance is not debited. *)
Lemma swapROLLForETH_debits_the_ciphertext :
  let s' := step call (SwapROLLForETH 1 (mkExternal 0 true)) stocked in
  snd (tx call (SwapROLLForETH 1 (mkExternal 0 true)) stocked) = Success
  /\ balance s' = balance stocked - 1 * ether / 1000
  /\ decrypt (balanceOf s' alice) <> decrypt (balanceOf stocked alice) - 1.
Proof. vm_compute. repeat split; discriminate. Qed.

(** C5: a plain payment from alice, who is not the owner, raises the
    contract's balance through [receive], which is none of the four
    treasury operations. *)
Lemma receive_moves_the_treasury :
  treasury_operation Receive = false
  /\ msg_sender (call_with 5) <> owner fresh
  /\ balance (step (call_with 5) Receive fresh) <> balance fresh.
Proof. vm_compute. repeat split; discriminate. Qed.

(** C6: alice holds 4294967295 ROLL and buys one more; her decrypted
    balance goes to 0 instead of up by 1. *)
Lemma swapETHForROLL_wraps :
  let n := 10 ^ 15 in
  let s' := step (call_with n) SwapETHForROLL full in
  snd (tx (call_with n) SwapETHForROLL full) = Success
  /\ n * 1000 / ether = 1
  /\ decrypt (balanceOf full alice) = 4294967295
  /\ decrypt (balanceOf s' alice) = 0
  /\ decrypt (balanceOf s' alice) <> decrypt (balanceOf full alice) + n * 1000 / ether.
Proof. vm_compute. repeat split; discriminate. Qed.

(** C7: with a = 10^22 and b = 1 both mints go through, but the single
    mint of a + b is over the cap and credits nothing. *)
Lemma mint_sum_over_the_cap :
  let a := 10 ^ 22 in
  let b := 1 in
  snd (tx call (MintTokens a) fresh) = Success
  /\ snd (tx call (MintTokens b) (step call (MintTokens a) fresh)) = Success
  /\ snd (tx call (MintTokens (a + b)) fresh) = Reverted MaxMintExceeded
  /\ decrypt (balanceOf (step call (MintTokens b) (step call (MintTokens a) fresh)) alice)
     <> decrypt (balanceOf (step call (MintTokens (a + b)) fresh) alice).
Proof. vm_compute. repeat split; discriminate. Qed.


End Runs.

(** * Further concrete runs *)

Section MoreRuns.
Import Scenario Scenes.

Local Abbreviation tx := (transact hash eoa).

Lemma owner_call_valid v : 0 <= v -> valid_env (owner_call_with v).
Proof. intros Hv. unfold valid_env, owner_call_with, deployer; cbn; lia. Qed.

(** X1 at a deposit of 1 ether by the owner. *)
Lemma addTreasuryETH_outcome_witness :
  0 <= msg_value (owner_call_with (10 ^ 18))
  /\ balance (fst (tx (owner_call_with (10 ^ 18)) AddTreasuryETH fresh))
     = balance fresh + 10 ^ 18.
Proof.
  assert (Hv : 0 <= msg_value (owner_call_with (10 ^ 18))) by (cbn; lia).
  split; [exact Hv|].
  destruct (addTreasuryETH_outcome hash eoa (owner_call_with (10 ^ 18)) fresh Hv)
    as (_ & _ & H).
  pose proof (H ltac:(reflexivity) ltac:(cbn; lia)) as (_ & Hbal & _).
  exact Hbal.
Defined.

(** X2 at two deposits, of 1 and of 0.5 ether. *)
Lemma deposits_accumulate_witness :
  Forall (fun env => msg_sender env = owner fresh /\ 0 < msg_value env)
         [owner_call_with (10 ^ 18); owner_call_with (5 * 10 ^ 17)]
  /\ balance (replay hash eoa
                [(owner_call_with (10 ^ 18), AddTreasuryETH);
                 (owner_call_with (5 * 10 ^ 17), AddTreasuryETH)] fresh)
     = balance fresh + 15 * 10 ^ 17.
Proof.
  assert (H : Forall (fun env => msg_sender env = owner fresh /\ 0 < msg_value env)
                     [owner_call_with (10 ^ 18); owner_call_with (5 * 10 ^ 17)]).
  { repeat constructor; cbn; lia. }
  split; [exact H|].
  exact (proj1 (deposits_accumulate hash eoa _ fresh H)).
Defined.

(** X3 on the funded contract. *)
Lemma withdrawETH_outcome_witness :
  msg_value owner_call = 0
  /\ balance (fst (tx owner_call WithdrawETH stocked)) = 0.
Proof.
  split; [reflexivity|].
  destruct (withdrawETH_outcome hash eoa owner_call stocked ltac:(reflexivity)) as (_ & _ & H).
  pose proof (H ltac:(reflexivity) ltac:(reflexivity)) as (_ & Hbal & _).
  exact Hbal.
Defined.

(** X4: alice still holds 1000 ROLL and can no longer sell one. *)
Lemma no_sale_after_withdrawal_witness :
  msg_value owner_call = 0 /\ msg_value call = 0
  /\ msg_sender owner_call = owner stocked /\ eoa (owner stocked) = true
  /\ 0 < 1 <= uint32_max
  /\ tx call (SwapROLLForETH 1 (mkExternal 1 true)) (fst (tx owner_call WithdrawETH stocked))
     = (fst (tx owner_call WithdrawETH stocked), Reverted InsufficientTreasury).
Proof.
  assert (Hamt : 0 < 1 <= uint32_max) by (unfold uint32_max; lia).
  split; [reflexivity|]. split; [reflexivity|]. split; [reflexivity|].
  split; [reflexivity|]. split; [exact Hamt|].
  exact (proj2 (proj2 (no_sale_after_withdrawal hash eoa owner_call call 1 (mkExternal 1 true)
                         stocked ltac:(reflexivity) ltac:(reflexivity) ltac:(reflexivity)
                         ltac:(reflexivity) Hamt))).
Defined.

(** X6: alice, holding nothing, stakes 100. *)
Lemma startGame_outcome_witness :
  msg_value call = 0 /\ (1 = 1 \/ 1 = 2 \/ 1 = 3) /\ gameCounter fresh < uint256_max
  /\ decrypt (balanceOf (fst (tx call (StartGame 1 (mkExternal 0 true) (mkExternal 100 true)) fresh)) alice)
     = (decrypt (balanceOf fresh alice) - 100) mod 2 ^ 32.
Proof.
  assert (Hn : 1 = 1 \/ 1 = 2 \/ 1 = 3) by lia.
  assert (Hgc : gameCounter fresh < uint256_max) by (vm_compute; reflexivity).
  split; [reflexivity|]. split; [exact Hn|]. split; [exact Hgc|].
  destruct (startGame_outcome hash eoa call 1 (mkExternal 0 true) (mkExternal 100 true) fresh
              ltac:(reflexivity) Hn Hgc) as (_ & H).
  pose proof (H ltac:(reflexivity) ltac:(reflexivity)) as (_ & _ & _ & _ & _ & Hdebit & _).
  exact Hdebit.
Defined.

(** X7: bob tries to resolve alice's game, and alice a game that does not
    exist. *)
Lemma resolveGame_only_player_witness :
  msg_value bob_call = 0
  /\ tx bob_call (ResolveGame 0) staked = (staked, Reverted OnlyGamePlayer).
Proof.
  split; [reflexivity|].
  assert (Hne : player (getGame staked 0) <> msg_sender bob_call) by (vm_compute; discriminate).
  exact (proj1 (resolveGame_only_player hash eoa bob_call 0 staked ltac:(reflexivity)) Hne).
Defined.

(** X8 on a game of one die staked from 1000 ROLL. *)
Lemma stake_then_resolve_witness :
  msg_value call = 0 /\ msg_sender call = msg_sender call
  /\ (1 = 1 \/ 1 = 2 \/ 1 = 3) /\ gameCounter minted < uint256_max
  /\ snd (tx call (ResolveGame (gameCounter minted))
            (fst (tx call (StartGame 1 (mkExternal 0 true) (mkExternal 100 true)) minted)))
     = Success.
Proof.
  assert (Hn : 1 = 1 \/ 1 = 2 \/ 1 = 3) by lia.
  assert (Hgc : gameCounter minted < uint256_max) by (vm_compute; reflexivity).
  split; [reflexivity|]. split; [reflexivity|]. split; [exact Hn|]. split; [exact Hgc|].
  exact (proj1 (stake_then_resolve hash eoa call call 1 0 100 minted
                  ltac:(reflexivity) ltac:(reflexivity) ltac:(reflexivity) Hn Hgc)).
Defined.

(** X9 on the same game, read by alice and by bob. *)
Lemma game_views_round_trip_witness :
  msg_value call = 0 /\ msg_sender call = msg_sender call
  /\ (1 = 1 \/ 1 = 2 \/ 1 = 3) /\ gameCounter minted < uint256_max
  /\ getGamePrediction call
       (fst (tx call (StartGame 1 (mkExternal 0 true) (mkExternal 100 true)) minted))
       (gameCounter minted)
     = Ok (Some 0).
Proof.
  assert (Hn : 1 = 1 \/ 1 = 2 \/ 1 = 3) by lia.
  assert (Hgc : gameCounter minted < uint256_max) by (vm_compute; reflexivity).
  split; [reflexivity|]. split; [reflexivity|]. split; [exact Hn|]. split; [exact Hgc|].
  exact (proj1 (proj1 (game_views_round_trip hash eoa call call bob_call 1 0 100 minted
                         ltac:(reflexivity) ltac:(reflexivity) ltac:(reflexivity) Hn Hgc))).
Defined.

(** X10 on the staked game across its resolution. *)
Lemma game_fields_immutable_witness :
  reachable hash eoa staked /\ valid_env call /\ 0 <= 0 < gameCounter staked
  /\ timestamp (getGame (fst (tx call (ResolveGame 0) staked)) 0) = timestamp (getGame staked 0).
Proof.
  assert (Hid : 0 <= 0 < gameCounter staked) by (vm_compute; split; [discriminate | reflexivity]).
  split; [exact staked_reachable|]. split; [exact call_valid|]. split; [exact Hid|].
  destruct (game_fields_immutable hash eoa call (ResolveGame 0) 0 staked
              staked_reachable call_valid Hid) as (_ & _ & _ & _ & Ht & _).
  exact Ht.
Defined.

(** X11: bob may not publish alice's balance. *)
Lemma makeBalancePubliclyDecryptable_outcome_witness :
  msg_value bob_call = 0
  /\ tx bob_call (MakeBalancePubliclyDecryptable alice) minted = (minted, Reverted Unauthorized).
Proof.
  split; [reflexivity|].
  assert (H1 : msg_sender bob_call <> alice) by (vm_compute; discriminate).
  assert (H2 : msg_sender bob_call <> owner minted) by (vm_compute; discriminate).
  exact (proj1 (makeBalancePubliclyDecryptable_outcome hash eoa bob_call alice minted
                  ltac:(reflexivity)) H1 H2).
Defined.

(** X12: bob mints, alice's balance is untouched. *)
Lemma balances_isolated_witness :
  alice <> msg_sender bob_call
  /\ balanceOf (fst (tx bob_call (MintTokens 800) minted)) alice = balanceOf minted alice.
Proof.
  assert (Hne : alice <> msg_sender bob_call) by (vm_compute; discriminate).
  split; [exact Hne|].
  exact (balances_isolated hash eoa bob_call (MintTokens 800) minted alice Hne).
Defined.

(** X14 at a mint of 2^32 + 5, which credits 5. *)
Lemma mintTokens_event_and_credit_witness :
  msg_value call = 0 /\ 0 <= 2 ^ 32 + 5 <= MAX_MINT
  /\ events (fst (tx call (MintTokens (2 ^ 32 + 5)) fresh))
     = events fresh ++ [TokensMinted (msg_sender call) (2 ^ 32 + 5)].
Proof.
  assert (Hamt : 0 <= 2 ^ 32 + 5 <= MAX_MINT) by (unfold MAX_MINT, ether; lia).
  split; [reflexivity|]. split; [exact Hamt|].
  destruct (mintTokens_event_and_credit hash eoa call (2 ^ 32 + 5) fresh ltac:(reflexivity) Hamt)
    as (_ & Hev & _).
  exact Hev.
Defined.

(** X15 at a payment of 999999999999999 wei. *)
Lemma dust_buys_nothing_witness :
  0 < msg_value (call_with (10 ^ 15 - 1)) < 10 ^ 15
  /\ 0 <= decrypt (balanceOf minted (msg_sender (call_with (10 ^ 15 - 1)))) < 2 ^ 32
  /\ balance (fst (tx (call_with (10 ^ 15 - 1)) SwapETHForROLL minted))
     = balance minted + msg_value (call_with (10 ^ 15 - 1)).
Proof.
  assert (Hv : 0 < msg_value (call_with (10 ^ 15 - 1)) < 10 ^ 15) by (cbn; lia).
  assert (Hold : 0 <= decrypt (balanceOf minted (msg_sender (call_with (10 ^ 15 - 1)))) < 2 ^ 32).
  { vm_compute. split; [discriminate | reflexivity]. }
  split; [exact Hv|]. split; [exact Hold|].
  destruct (dust_buys_nothing hash eoa (call_with (10 ^ 15 - 1)) minted Hv Hold) as (_ & Hbal & _).
  exact Hbal.
Defined.

(** X16 at a payment of 0.1234567 ether, which buys 123 tokens. *)
Lemma buy_then_sell_witness :
  0 < msg_value (call_with 123456700000000000) * 1000 / ether
  /\ msg_value call = 0
  /\ msg_sender call = msg_sender (call_with 123456700000000000)
  /\ 0 <= balance fresh
  /\ 0 <= decrypt (balanceOf fresh (msg_sender (call_with 123456700000000000))) < 2 ^ 32
  /\ balance (fst (tx call (SwapROLLForETH (msg_value (call_with 123456700000000000) * 1000 / ether)
                              (mkExternal (msg_value (call_with 123456700000000000) * 1000 / ether) true))
                     (fst (tx (call_with 123456700000000000) SwapETHForROLL fresh))))
     = balance fresh + msg_value (call_with 123456700000000000) mod 10 ^ 15.
Proof.
  assert (H1 : 0 < msg_value (call_with 123456700000000000) * 1000 / ether).
  { vm_compute. reflexivity. }
  assert (H2 : 0 <= balance fresh) by (vm_compute; discriminate).
  assert (H3 : 0 <= decrypt (balanceOf fresh (msg_sender (call_with 123456700000000000))) < 2 ^ 32).
  { vm_compute. split; [discriminate | reflexivity]. }
  split; [exact H1|]. split; [reflexivity|]. split; [reflexivity|].
  split; [exact H2|]. split; [exact H3|].
  destruct (buy_then_sell hash eoa (call_with 123456700000000000) call fresh
              H1 ltac:(reflexivity) ltac:(reflexivity) H2 H3)
    as (_ & Hsale).
  destruct Hsale as (_ & Hback & _); [vm_compute; discriminate|].
  exact (proj1 (Hback ltac:(reflexivity))).
Defined.

(** X17 on a deposit followed by a sale and a withdrawal. *)
Lemma treasury_never_negative_witness :
  0 <= 0
  /\ Forall (fun t => 0 <= msg_value (fst t))
            [(owner_call_with (10 ^ 18), AddTreasuryETH);
             (call, MintTokens 1000);
             (call, SwapROLLForETH 500 (mkExternal 500 true));
             (owner_call, WithdrawETH)]
  /\ 0 <= balance (replay hash eoa
                     [(owner_call_with (10 ^ 18), AddTreasuryETH);
                      (call, MintTokens 1000);
                      (call, SwapROLLForETH 500 (mkExternal 500 true));
                      (owner_call, WithdrawETH)]
                     (constructor deployer 0)).
Proof.
  assert (H : Forall (fun t => 0 <= msg_value (fst t))
                     [(owner_call_with (10 ^ 18), AddTreasuryETH);
                      (call, MintTokens 1000);
                      (call, SwapROLLForETH 500 (mkExternal 500 true));
                      (owner_call, WithdrawETH)]).
  { repeat constructor; cbn; lia. }
  split; [lia|]. split; [exact H|].
  exact (treasury_never_negative hash eoa deployer 0 _ ltac:(lia) H).
Defined.

(** X19 on the staked game: the faces 4 and 5 add up to 9, and the last
    permission asked is the result, for the player. *)
Lemma outcome_matches_stored_dice_witness :
  reachable hash eoa staked /\ valid_env call /\ msg_value call = 0
  /\ player (getGame staked 0) = msg_sender call
  /\ isResolved (getGame staked 0) = false
  /\ diceCount (getGame staked 0)
     <= sum_faces (diceValues (getGame (fst (tx call (ResolveGame 0) staked)) 0))
     <= 6 * diceCount (getGame staked 0)
  /\ last (grants (fst (tx call (ResolveGame 0) staked)))
     = Some (Allow (CBool true) (msg_sender call)).
Proof.
  assert (H1 : player (getGame staked 0) = msg_sender call) by (vm_compute; reflexivity).
  assert (H2 : isResolved (getGame staked 0) = false) by (vm_compute; reflexivity).
  split; [exact staked_reachable|]. split; [exact call_valid|]. split; [reflexivity|].
  split; [exact H1|]. split; [exact H2|].
  destruct (outcome_matches_stored_dice hash eoa call 0 staked
              staked_reachable call_valid ltac:(reflexivity) H1 H2)
    as (_ & _ & _ & Hrange & _ & Hlast & _).
  split; [exact Hrange|].
  rewrite Hlast. vm_compute. reflexivity.
Defined.

(** X20 on the staked state: alice's list is [0]. *)
Lemma player_games_index_the_table_witness :
  reachable hash eoa staked
  /\ NoDup (getPlayerGames staked alice).
Proof.
  split; [exact staked_reachable|].
  destruct (player_games_index_the_table hash eoa staked alice staked_reachable)
    as (_ & _ & Hnd & _).
  exact Hnd.
Defined.

(** X21 on the staked state, whose counter is 1. *)
Lemma game_ids_are_sequential_witness :
  reachable hash eoa staked /\ valid_env call
  /\ (forall gameId, is_Some (games staked !! gameId) <-> 0 <= gameId < gameCounter staked).
Proof.
  split; [exact staked_reachable|]. split; [exact call_valid|].
  exact (proj1 (game_ids_are_sequential hash eoa call (ResolveGame 0) staked
                  staked_reachable call_valid)).
Defined.

End MoreRuns.
